(** * django_geckoboard.decorators: a shallow embedding in Rocq

    The module [django_geckoboard/decorators.py] is Python 2 code (its tests
    build Basic headers with [base64.b64encode('abc')] on a [str]).  Python
    objects are modelled as follows.

    - Immutable values (None, bool, int/long, float, str, tuple) are the
      constructors of [val]; Python [float] is an IEEE binary64 number, the
      [spec_float] of the Standard Library with [prec = 53], [emax = 1024].
    - Mutable objects (list, dict, OrderedDict) live in a heap, a stdpp
      [gmap positive obj]; a [val] refers to them through [VRef], so that
      aliasing between the caller's objects and the normaliser's objects is
      visible.  A dict is its list of items in iteration order (insertion
      order for an OrderedDict); its keys are strings.
    - Code runs in a state and exception monad [M]: a computation maps a
      heap to an outcome (a value or a Python exception) and the final heap;
      mutations made before an exception is raised are kept, as in Python.
    - The exception [Unsupported] marks the inputs outside the modelled
      fragment of Python (for instance comparing a string with a number, or
      a cyclic structure given to the renderer). *)

From Stdlib Require Import ZArith List String Ascii Bool Lia.
From Stdlib Require Import Sorting.Permutation Sorting.Sorted.
From Stdlib Require Import Floats.SpecFloat.
From stdpp Require Import base gmap.
Import ListNotations.
Open Scope string_scope.
Open Scope list_scope.
Open Scope Z_scope.
Set Warnings "-register-all".

(* ------------------------------------------------------------------ *)
(** ** Python floats *)

Module PyFloat.

Definition float := spec_float.

Definition prec : Z := 53.
Definition emax : Z := 1024.

Definition add (x y : float) : float := SFadd prec emax x y.
Definition sub (x y : float) : float := SFsub prec emax x y.
Definition mul (x y : float) : float := SFmul prec emax x y.
Definition div (x y : float) : float := SFdiv prec emax x y.

Definition is_finite (x : float) : bool :=
  match x with S754_zero _ | S754_finite _ _ _ => true | _ => false end.

Definition is_zero (x : float) : bool :=
  match x with S754_zero _ => true | _ => false end.

(** [float(z)] for a Python int: correctly rounded (ties to even);
    [None] stands for the [OverflowError] of a too large long. *)
Definition of_Z (z : Z) : option float :=
  let f := binary_normalize prec emax z 0 false in
  if is_finite f then Some f else None.

(** [int(x)]: truncation toward zero; [None] on inf and nan. *)
Definition trunc (x : float) : option Z :=
  match x with
  | S754_zero _ => Some 0
  | S754_finite s m e =>
      let a := if (0 <=? e) then Z.shiftl (Zpos m) e
               else Z.shiftr (Zpos m) (- e) in
      Some (if s then - a else a)
  | _ => None
  end.

(** Round the exact rational [n / d] (with [0 < d]) to an integer, ties
    to even: the digit string that ["%.*f"] prints. *)
Definition round_half_even (n d : Z) : Z :=
  let '(q, r) := Z.div_eucl n d in
  match Z.compare (2 * r) d with
  | Lt => q
  | Gt => q + 1
  | Eq => if Z.even q then q else q + 1
  end.

(** The double nearest to [n / 10^p], [n >= 0]: [float] applied to the
    decimal string ["<n / 10^p>"]; [sign] is the sign of the string. *)
Definition of_decimal (sign : bool) (n : Z) (p : Z) : float :=
  match n with
  | Zpos m =>
      match 10 ^ p with
      | Zpos d => SFdiv prec emax (S754_finite sign m 0) (S754_finite false d 0)
      | _ => S754_nan
      end
  | _ => S754_zero sign
  end.

(** [float("%.*f" % (p, x))] for a float [x] and a precision [p >= 0]:
    the correctly rounded decimal with [p] fractional digits, read back
    as the nearest double.  inf and nan print as "inf" and "nan" and read
    back unchanged. *)
Definition round_decimal (p : Z) (x : float) : float :=
  match x with
  | S754_finite s m e =>
      let scaled := Zpos m * 10 ^ p in
      let n := if (0 <=? e) then Z.shiftl scaled e
               else round_half_even scaled (2 ^ (- e)) in
      of_decimal s n p
  | _ => x
  end.

End PyFloat.

(* ------------------------------------------------------------------ *)
(** ** Python values, the heap and the interpreter monad *)

Module Py.

Inductive exn :=
| TypeError | ValueError | KeyError | IndexError | AttributeError
| OverflowError | ZeroDivisionError | Unsupported.

Inductive val :=
| VNone
| VBool (b : bool)
| VInt (z : Z)
| VFloat (f : PyFloat.float)
| VStr (s : string)
| VTuple (l : list val)
| VRef (p : positive).

Inductive obj :=
| OList (l : list val)
| ODict (kv : list (string * val)).

Abbreviation heap := (gmap positive obj).

(** A computation: from a heap to an outcome and the final heap. *)
Definition M (A : Type) : Type := heap -> (exn + A) * heap.

Definition ret {A} (a : A) : M A := fun h => (inr a, h).
Definition raise {A} (e : exn) : M A := fun h => (inl e, h).
Definition bind {A B} (m : M A) (k : A -> M B) : M B := fun h =>
  match m h with
  | (inl e, h') => (inl e, h')
  | (inr a, h') => k a h'
  end.

Notation "x <- m ;; k" := (bind m (fun x => k))
  (at level 100, m at next level, right associativity).
Notation "m ;;; k" := (bind m (fun _ => k))
  (at level 100, right associativity).

(** Heap-free computations that may raise: [R A], lifted into [M]. *)
Definition R (A : Type) : Type := exn + A.
Definition rbind {A B} (r : R A) (k : A -> R B) : R B :=
  match r with inl e => inl e | inr a => k a end.
Notation "x <-? r ;; k" := (rbind r (fun x => k))
  (at level 100, r at next level, right associativity).
Definition lift {A} (r : R A) : M A := fun h => (r, h).

Fixpoint mapR {A B} (f : A -> R B) (l : list A) : R (list B) :=
  match l with
  | [] => inr []
  | x :: l' => y <-? f x ;; ys <-? mapR f l' ;; inr (y :: ys)
  end.

Definition of_option {A} (e : exn) (o : option A) : M A :=
  match o with Some a => ret a | None => raise e end.

Definition load (p : positive) : M obj := fun h =>
  match h !! p with
  | Some o => (inr o, h)
  | None => (inl Unsupported, h)
  end.

Definition store (p : positive) (o : obj) : M unit := fun h =>
  (inr tt, <[p := o]> h).

(** A new object, at a location not used by the heap. *)
Definition alloc (o : obj) : M val := fun h =>
  let p := fresh (dom h) in (inr (VRef p), <[p := o]> h).

Fixpoint mapM {A B} (f : A -> M B) (l : list A) : M (list B) :=
  match l with
  | [] => ret []
  | x :: l' => y <- f x ;; ys <- mapM f l' ;; ret (y :: ys)
  end.

(** *** Dictionaries as item lists *)

Fixpoint assoc (k : string) (kv : list (string * val)) : option val :=
  match kv with
  | [] => None
  | (k', v) :: kv' => if String.eqb k k' then Some v else assoc k kv'
  end.

Fixpoint assoc_remove (k : string) (kv : list (string * val)) :=
  match kv with
  | [] => []
  | (k', v) :: kv' =>
      if String.eqb k k' then kv' else (k', v) :: assoc_remove k kv'
  end.

(** [d[k] = v]: an existing key keeps its place, a new key is appended. *)
Fixpoint assoc_set (k : string) (v : val) (kv : list (string * val)) :=
  match kv with
  | [] => [(k, v)]
  | (k', v') :: kv' =>
      if String.eqb k k' then (k', v) :: kv' else (k', v') :: assoc_set k v kv'
  end.

(** *** Built-in operations *)

Definition chars (s : string) : list val :=
  map (fun c => VStr (String c EmptyString)) (list_ascii_of_string s).

(** [isinstance(v, (tuple, list))], with the items when it holds. *)
Definition seq_items (v : val) : M (option (list val)) :=
  match v with
  | VTuple l => ret (Some l)
  | VRef p => o <- load p ;;
      match o with OList l => ret (Some l) | ODict _ => ret None end
  | _ => ret None
  end.

(** [if not isinstance(v, (tuple, list)): v = [v]], then the items. *)
Definition wrap_seq (v : val) : M (list val) :=
  o <- seq_items v ;;
  match o with Some l => ret l | None => ret [v] end.

(** [for x in v]: the items a Python iteration over [v] yields. *)
Definition py_iter (v : val) : M (list val) :=
  match v with
  | VTuple l => ret l
  | VStr s => ret (chars s)
  | VRef p => o <- load p ;;
      match o with
      | OList l => ret l
      | ODict kv => ret (map (fun kv1 => VStr (fst kv1)) kv)
      end
  | _ => raise TypeError
  end.

Definition py_len (v : val) : M Z :=
  match v with
  | VTuple l => ret (Z.of_nat (length l))
  | VStr s => ret (Z.of_nat (String.length s))
  | VRef p => o <- load p ;;
      match o with
      | OList l => ret (Z.of_nat (length l))
      | ODict kv => ret (Z.of_nat (length kv))
      end
  | _ => raise TypeError
  end.

Definition nth_index (l : list val) (i : nat) : M val :=
  of_option IndexError (nth_error l i).

(** [v[i]] for a non-negative integer [i]. *)
Definition py_index (v : val) (i : nat) : M val :=
  match v with
  | VTuple l => nth_index l i
  | VStr s => nth_index (chars s) i
  | VRef p => o <- load p ;;
      match o with
      | OList l => nth_index l i
      | ODict _ => raise KeyError   (* keys are strings *)
      end
  | _ => raise TypeError
  end.

(** [v[k]] for a string [k]. *)
Definition getitem (v : val) (k : string) : M val :=
  match v with
  | VRef p => o <- load p ;;
      match o with
      | ODict kv => of_option KeyError (assoc k kv)
      | OList _ => raise TypeError
      end
  | _ => raise TypeError
  end.

(** [v.get(k, default)]; only dicts have a [get] method. *)
Definition dict_get (v : val) (k : string) (default : val) : M val :=
  match v with
  | VRef p => o <- load p ;;
      match o with
      | ODict kv => ret (match assoc k kv with Some x => x | None => default end)
      | OList _ => raise AttributeError
      end
  | _ => raise AttributeError
  end.

(** [v.pop(k)] ([default = None]) or [v.pop(k, d)] ([default = Some d]). *)
Definition dict_pop (v : val) (k : string) (default : option val) : M val :=
  match v with
  | VRef p => o <- load p ;;
      match o with
      | ODict kv =>
          match assoc k kv with
          | Some x => store p (ODict (assoc_remove k kv)) ;;; ret x
          | None => of_option KeyError default
          end
      | OList _ => raise TypeError   (* list.pop wants an integer *)
      end
  | _ => raise AttributeError
  end.

(** [v[k] = x] for a string [k]. *)
Definition setitem (v : val) (k : string) (x : val) : M unit :=
  match v with
  | VRef p => o <- load p ;;
      match o with
      | ODict kv => store p (ODict (assoc_set k x kv))
      | OList _ => raise TypeError
      end
  | _ => raise TypeError
  end.

Definition truthy (v : val) : M bool :=
  match v with
  | VNone => ret false
  | VBool b => ret b
  | VInt z => ret (negb (z =? 0))
  | VFloat f => ret (negb (PyFloat.is_zero f))
  | VStr s => ret (negb (String.eqb s ""))
  | VTuple l => ret (negb (Nat.eqb (length l) 0))
  | VRef p => o <- load p ;;
      match o with
      | OList l => ret (negb (Nat.eqb (length l) 0))
      | ODict kv => ret (negb (Nat.eqb (length kv) 0))
      end
  end.

Definition is_none (v : val) : bool :=
  match v with VNone => true | _ => false end.

End Py.

(* ------------------------------------------------------------------ *)
(** ** Arithmetic, comparison and sorting of Python values *)

Module PyOps.
Import Py.

(** A Python number: int (bool counts as int) or float. *)
Inductive num := NInt (z : Z) | NFloat (f : PyFloat.float).

Definition as_num (v : val) : option num :=
  match v with
  | VBool b => Some (NInt (if b then 1 else 0))
  | VInt z => Some (NInt z)
  | VFloat f => Some (NFloat f)
  | _ => None
  end.

(** [float(n)]. *)
Definition to_float (n : num) : R PyFloat.float :=
  match n with
  | NInt z => match PyFloat.of_Z z with Some f => inr f | None => inl OverflowError end
  | NFloat f => inr f
  end.

(** [a - b]: exact on two ints, a float subtraction otherwise. *)
Definition num_sub (a b : num) : R num :=
  match a, b with
  | NInt x, NInt y => inr (NInt (x - y))
  | _, _ => x <-? to_float a ;; y <-? to_float b ;; inr (NFloat (PyFloat.sub x y))
  end.

(** Exact comparison of a float with an integer; [None] for nan. *)
Definition float_cmp_Z (f : PyFloat.float) (z : Z) : option comparison :=
  match f with
  | S754_zero _ => Some (Z.compare 0 z)
  | S754_infinity s => Some (if s then Lt else Gt)
  | S754_nan => None
  | S754_finite s m e =>
      let a := if s then Z.neg m else Zpos m in
      if 0 <=? e then Some (Z.compare (Z.shiftl a e) z)
      else Some (Z.compare a (Z.shiftl z (- e)))
  end.

Definition num_cmp (a b : num) : option comparison :=
  match a, b with
  | NInt x, NInt y => Some (Z.compare x y)
  | NFloat f, NInt y => float_cmp_Z f y
  | NInt x, NFloat g => option_map CompOpp (float_cmp_Z g x)
  | NFloat f, NFloat g => SFcompare f g
  end.

(** [a < b] and [a == b]: false when a nan is involved. *)
Definition num_lt (a b : num) : bool :=
  match num_cmp a b with Some Lt => true | _ => false end.
Definition num_eq (a b : num) : bool :=
  match num_cmp a b with Some Eq => true | _ => false end.

(** Python 2 ordering of immutable values (numbers, strings, tuples and
    None); other pairs are outside the modelled fragment. *)
Fixpoint py_cmp (a b : val) : option comparison :=
  match a, b with
  | VNone, VNone => Some Eq
  | VStr x, VStr y => Some (String.compare x y)
  | VTuple xs, VTuple ys =>
      (fix lex (xs ys : list val) : option comparison :=
         match xs, ys with
         | [], [] => Some Eq
         | [], _ :: _ => Some Lt
         | _ :: _, [] => Some Gt
         | x :: xs', y :: ys' =>
             match py_cmp x y with
             | Some Eq => lex xs' ys'
             | r => r
             end
         end) xs ys
  | _, _ =>
      match as_num a, as_num b with
      | Some x, Some y => num_cmp x y
      | _, _ => None
      end
  end.

(** Stable insertion of [x] into a list sorted in descending order: [x]
    goes after every element that is not smaller than it. *)
Fixpoint insert_desc (x : val) (l : list val) : option (list val) :=
  match l with
  | [] => Some [x]
  | y :: l' =>
      match py_cmp y x with
      | Some Lt => Some (x :: y :: l')
      | Some _ => option_map (cons y) (insert_desc x l')
      | None => None
      end
  end.

Fixpoint sort_desc_from (acc : list val) (l : list val) : option (list val) :=
  match l with
  | [] => Some acc
  | x :: l' =>
      match insert_desc x acc with
      | Some acc' => sort_desc_from acc' l'
      | None => None
      end
  end.

(** [sorted(l, reverse=True)]: Python's sort is stable, also with
    [reverse=True], so its result is the stable descending sort. *)
Definition sort_desc (l : list val) : option (list val) := sort_desc_from [] l.

(** [v.sort(reverse=True)]: sorts a list in place; tuples, strings and
    the other types have no [sort] method. *)
Definition list_sort_reverse (v : val) : M unit :=
  match v with
  | VRef p => o <- load p ;;
      match o with
      | OList l => l' <- of_option Unsupported (sort_desc l) ;; store p (OList l')
      | ODict _ => raise AttributeError
      end
  | _ => raise AttributeError
  end.

End PyOps.

(* ------------------------------------------------------------------ *)
(** ** The widget normalisers ([_convert_view_result]) *)

Module Decorators.
Import Py PyOps.

Definition TEXT_NONE : Z := 0.
Definition TEXT_INFO : Z := 2.
Definition TEXT_WARN : Z := 1.

(** [WidgetDecorator._convert_view_result]: the identity. *)
Definition widget_convert (data : val) : M val := ret data.

(** [NumberWidgetDecorator._convert_view_result] *)
Definition number_convert (result : val) : M val :=
  items <- wrap_seq result ;;
  ds <- mapM (fun v => alloc (ODict [("value", v)]))
              (List.filter (fun v => negb (is_none v)) items) ;;
  l <- alloc (OList ds) ;;
  alloc (ODict [("item", l)]).

(** [RAGWidgetDecorator._convert_view_result] *)
Definition rag_item (elem : val) : M val :=
  es <- wrap_seq elem ;;
  v0 <- nth_index es 0 ;;
  let value := if is_none v0 then VStr "" else v0 in
  let text := match es with _ :: t :: _ => [("text", t)] | _ => [] end in
  alloc (ODict (("value", value) :: text)).

Definition rag_convert (result : val) : M val :=
  elems <- py_iter result ;;
  items <- mapM rag_item elems ;;
  l <- alloc (OList items) ;;
  alloc (ODict [("item", l)]).

(** [TextWidgetDecorator._convert_view_result] *)
Definition text_item (elem : val) : M val :=
  es <- wrap_seq elem ;;
  t <- nth_index es 0 ;;
  let ty := match es with
            | _ :: ty :: _ => if is_none ty then VInt TEXT_NONE else ty
            | _ => VInt TEXT_NONE
            end in
  alloc (ODict [("text", t); ("type", ty)]).

Definition text_convert (result : val) : M val :=
  elems <- wrap_seq result ;;
  items <- mapM text_item elems ;;
  l <- alloc (OList items) ;;
  alloc (ODict [("item", l)]).

(** [PieChartWidgetDecorator._convert_view_result] *)
Definition pie_item (elem : val) : M val :=
  es <- wrap_seq elem ;;
  v <- nth_index es 0 ;;
  let rest := match es with
              | _ :: lbl :: col :: _ => [("label", lbl); ("colour", col)]
              | _ :: lbl :: _ => [("label", lbl)]
              | _ => []
              end in
  alloc (ODict (("value", v) :: rest)).

Definition pie_convert (result : val) : M val :=
  elems <- py_iter result ;;
  items <- mapM pie_item elems ;;
  l <- alloc (OList items) ;;
  alloc (ODict [("item", l)]).

(** [LineChartWidgetDecorator._convert_view_result]: an axis label that
    is not a tuple or list is wrapped in a new one-element list; a tuple
    or list is stored as it is (the same object). *)
Definition line_axis (a : val) : M val :=
  let a := if is_none a then VStr "" else a in
  o <- seq_items a ;;
  match o with Some _ => ret a | None => alloc (OList [a]) end.

Definition line_convert (result : val) : M val :=
  r0 <- py_index result 0 ;;
  vals <- py_iter r0 ;;
  item <- alloc (OList vals) ;;
  n <- py_len result ;;
  xs <- (if 1 <? n then x <- py_index result 1 ;; x' <- line_axis x ;;
                         ret [("axisx", x')]
         else ret []) ;;
  ys <- (if 2 <? n then y <- py_index result 2 ;; y' <- line_axis y ;;
                         ret [("axisy", y')]
         else ret []) ;;
  cs <- (if 3 <? n then c <- py_index result 3 ;; ret [("colour", c)]
         else ret []) ;;
  settings <- alloc (ODict (xs ++ ys ++ cs)) ;;
  alloc (ODict [("item", item); ("settings", settings)]).

(** [GeckOMeterWidgetDecorator._convert_view_result] *)
Definition meter_bound (b : val) : M (list (string * val)) :=
  bs <- wrap_seq b ;;
  v <- nth_index bs 0 ;;
  ret (("value", v) :: match bs with _ :: t :: _ => [("text", t)] | _ => [] end).

Definition meter_convert (result : val) : M val :=
  parts <- py_iter result ;;   (* value, min, max = result *)
  match parts with
  | [value; mn; mx] =>
      maxkv <- meter_bound mx ;;
      minkv <- meter_bound mn ;;
      maxd <- alloc (ODict maxkv) ;;
      mind <- alloc (ODict minkv) ;;
      alloc (ODict [("item", value); ("max", maxd); ("min", mind)])
  | _ => raise ValueError
  end.

(** [FunnelWidgetDecorator._convert_view_result]; the entry of the item
    list is [dict(zip(("value","label"), item))], whose iteration order is
    value then label (the order the tests print). *)
Definition funnel_entry (it : val) : M val :=
  xs <- py_iter it ;;
  alloc (ODict (combine ["value"; "label"] xs)).

Definition funnel_convert (result : val) : M val :=
  dflt <- alloc (OList []) ;;
  items <- dict_get result "items" dflt ;;
  s <- dict_get result "sort" VNone ;;
  b <- truthy s ;;
  (if b then list_sort_reverse items else ret tt) ;;;
  its <- py_iter items ;;
  ds <- mapM funnel_entry its ;;
  l <- alloc (OList ds) ;;
  ty <- dict_get result "type" (VStr "standard") ;;
  pc <- dict_get result "percentage" (VStr "show") ;;
  alloc (ODict [("item", l); ("type", ty); ("percentage", pc)]).

(** *** Bullet graph *)

(** [precision == 0] *)
Definition is_zero_num (v : val) : bool :=
  match as_num v with Some n => num_eq n (NInt 0) | None => false end.

(** [int(x)] *)
Definition py_int (x : val) : R val :=
  match as_num x with
  | Some (NInt z) => inr (VInt z)
  | Some (NFloat S754_nan) => inl ValueError
  | Some (NFloat f) =>
      match PyFloat.trunc f with Some z => inr (VInt z) | None => inl OverflowError end
  | None => inl Unsupported
  end.

(** [float("%.*f" % (precision, x))]: the [*] precision must be an int
    (a negative one counts as 0), the argument a number. *)
Definition py_format_round (precision x : val) : R val :=
  p <-? match precision with
        | VInt z => inr z
        | VBool b => inr (if b then 1 else 0)
        | _ => inl TypeError
        end ;;
  f <-? match as_num x with Some n => to_float n | None => inl TypeError end ;;
  inr (VFloat (PyFloat.round_decimal (Z.max 0 p) f)).

(** The conversion applied to every axis point (lines 310-313). *)
Definition axis_convert (precision : val) (x : val) : R val :=
  if is_zero_num precision then py_int x else py_format_round precision x.

(** [step = (max_pt - min_pt) / float(pts - 1)] *)
Definition axis_step (mn mx n : num) : R PyFloat.float :=
  diff <-? num_sub mx mn ;;
  k <-? num_sub n (NInt 1) ;;
  den <-? to_float k ;;
  nm <-? to_float diff ;;
  if PyFloat.is_zero den then inl ZeroDivisionError
  else inr (PyFloat.div nm den).

(** [step * x + min_pt] *)
Definition axis_sample (step : PyFloat.float) (mn : num) (x : Z) : R val :=
  xf <-? to_float (NInt x) ;;
  m <-? to_float mn ;;
  inr (VFloat (PyFloat.add (PyFloat.mul step xf) m)).

(** [range(0, n)] *)
Definition range (n : Z) : list Z :=
  map Z.of_nat (seq 0 (Z.to_nat n)).

(** Lines 303-313: the axis points from [min], [max], [points] and
    [precision]. *)
Definition axis_points (min_pt max_pt pts precision : val) : R (list val) :=
  match as_num pts with
  | None =>
      (* Python 2 orders None below every number and the other types
         above them *)
      match pts with VNone => inl ValueError | _ => inl TypeError end
  | Some n =>
      if num_lt n (NInt 1) then inl ValueError
      else if num_eq n (NInt 1) then
        mapR (axis_convert precision) [min_pt; max_pt]
      else
        mn <-? match as_num min_pt with Some x => inr x | None => inl TypeError end ;;
        mx <-? match as_num max_pt with Some x => inr x | None => inl TypeError end ;;
        step <-? axis_step mn mx n ;;
        cnt <-? match n with NInt c => inr c | NFloat _ => inl TypeError end ;;
        mapR (fun x => s <-? axis_sample step mn x ;; axis_convert precision s)
             (range cnt)
  end.

(** [BulletGraphWidgetDecorator._convert_view_result]: the expression
    [result["item"]["axis"]] is evaluated afresh at each of its three
    occurrences in the source. *)
Definition bullet_convert (result : val) : M val :=
  item <- getitem result "item" ;;
  axis <- getitem item "axis" ;;
  pt <- dict_get axis "point" VNone ;;
  b <- truthy pt ;;
  if b then ret result
  else
    item1 <- getitem result "item" ;;
    d <- getitem item1 "axis" ;;
    min_pt <- dict_pop d "min" None ;;
    max_pt <- dict_pop d "max" None ;;
    pts <- dict_pop d "points" (Some (VInt 1)) ;;
    precision <- dict_pop d "precision" (Some (VInt 0)) ;;
    pts_l <- lift (axis_points min_pt max_pt pts precision) ;;
    l <- alloc (OList pts_l) ;;
    item2 <- getitem result "item" ;;
    axis2 <- getitem item2 "axis" ;;
    setitem axis2 "point" l ;;;
    ret result.

End Decorators.

(* ------------------------------------------------------------------ *)
(** ** Rendering ([_render], [_render_xml], [_build_xml]) *)

Module Render.
Import Py.

(** A payload as the renderers read it: the tree of objects reachable
    from a value. *)
Inductive tree :=
| TNone
| TBool (b : bool)
| TInt (z : Z)
| TFloat (f : PyFloat.float)
| TStr (s : string)
| TTuple (l : list tree)
| TList (l : list tree)
| TDict (kv : list (string * tree)).

Fixpoint readout (fuel : nat) (h : heap) (v : val) : option tree :=
  match fuel with
  | O => None
  | S fuel' =>
      let fix all (l : list val) : option (list tree) :=
        match l with
        | [] => Some []
        | x :: l' =>
            match readout fuel' h x, all l' with
            | Some t, Some ts => Some (t :: ts)
            | _, _ => None
            end
        end in
      let fix all_kv (kv : list (string * val)) : option (list (string * tree)) :=
        match kv with
        | [] => Some []
        | (k, x) :: kv' =>
            match readout fuel' h x, all_kv kv' with
            | Some t, Some ts => Some ((k, t) :: ts)
            | _, _ => None
            end
        end in
      match v with
      | VNone => Some TNone
      | VBool b => Some (TBool b)
      | VInt z => Some (TInt z)
      | VFloat f => Some (TFloat f)
      | VStr s => Some (TStr s)
      | VTuple l => option_map TTuple (all l)
      | VRef p =>
          match h !! p with
          | Some (OList l) => option_map TList (all l)
          | Some (ODict kv) => option_map TDict (all_kv kv)
          | None => None
          end
      end
  end.

(** Python's default recursion limit bounds the depth of the renderers;
    deeper (or cyclic) structures are outside the model. *)
Definition max_depth : nat := 1000.

Definition read_tree (v : val) : M tree := fun h =>
  match readout max_depth h v with
  | Some t => (inr t, h)
  | None => (inl Unsupported, h)
  end.

(** A minidom node: an element with its children, or the text node
    [doc.createTextNode(str(data))] made for a scalar [data]. *)
Inductive xnode :=
| XElem (tag : string) (children : list xnode)
| XText (data : tree).

(** [_build_xml(doc, parent, data)]: the nodes appended to [parent]. *)
Fixpoint build_xml (t : tree) : list xnode :=
  match t with
  | TTuple l | TList l =>                          (* _build_list_xml *)
      (fix go (l : list tree) : list xnode :=
         match l with [] => [] | x :: l' => build_xml x ++ go l' end) l
  | TDict kv =>                                    (* _build_dict_xml *)
      (fix go_kv (kv : list (string * tree)) : list xnode :=
         match kv with
         | [] => []
         | (tag, item) :: kv' =>
             match item with
             | TTuple l | TList l =>
                 (fix go_sub (l : list tree) : list xnode :=
                    match l with
                    | [] => []
                    | sub :: l' => XElem tag (build_xml sub) :: go_sub l'
                    end) l
             | _ => [XElem tag (build_xml item)]
             end ++ go_kv kv'
         end) kv
  | _ => [XText t]                                 (* _build_str_xml *)
  end.

(** [_render_xml]: the document element [root] holding the payload. *)
Definition render_xml (data : tree) : xnode := XElem "root" (build_xml data).

(** A response body: [json.dumps(data)] or the XML document. *)
Inductive content :=
| JsonBody (data : tree)
| XmlBody (doc : xnode).

(** An HTTP request: POST and GET are query dicts (lists of key-value
    pairs, [get] returning the last value of a key), META a dict. *)
Record request := {
  POST : list (string * string);
  GET : list (string * string);
  META : list (string * string)
}.

Definition qd_get (q : list (string * string)) (k d : string) : string :=
  fold_left (fun acc kv => if String.eqb k (fst kv) then snd kv else acc) q d.

(** [_render(request, data)] *)
Definition render (req : request) (data : tree) : content :=
  let format := qd_get (POST req) "format" "" in
  let format := if String.eqb format "" then qd_get (GET req) "format" "" else format in
  if String.eqb format "2" then JsonBody data else XmlBody (render_xml data).

End Render.

(* ------------------------------------------------------------------ *)
(** ** The API-key gate ([_is_api_key_correct]) and the decorator *)

Module Gate.
Import Py Render.

(** Python 2 [str.isspace] on one character (C locale). *)
Definition is_space (c : ascii) : bool :=
  let n := N_of_ascii c in
  (n =? 32)%N || (n =? 9)%N || (n =? 10)%N || (n =? 11)%N
  || (n =? 12)%N || (n =? 13)%N.

(** [s.split()]: the maximal runs of non-whitespace characters. *)
Fixpoint split_ws_go (cur : string) (s : string) : list string :=
  match s with
  | EmptyString => if String.eqb cur "" then [] else [cur]
  | String c s' =>
      if is_space c then
        (if String.eqb cur "" then [] else [cur]) ++ split_ws_go "" s'
      else split_ws_go (cur ++ String c EmptyString)%string s'
  end.

Definition split_ws (s : string) : list string := split_ws_go "" s.

(** [s.lower()] (ASCII). *)
Definition lower_char (c : ascii) : ascii :=
  let n := N_of_ascii c in
  if ((65 <=? n)%N && (n <=? 90)%N) then ascii_of_N (n + 32) else c.

Fixpoint lower (s : string) : string :=
  match s with
  | EmptyString => EmptyString
  | String c s' => String (lower_char c) (lower s')
  end.

(** [s.split(':')[0]] *)
Fixpoint user_part (s : string) : string :=
  match s with
  | EmptyString => EmptyString
  | String c s' =>
      if Ascii.eqb c ":" then EmptyString else String c (user_part s')
  end.

(** *** [base64.b64decode] (Python 2.7: [binascii.a2b_base64]) *)

(** [table_a2b_base64]: the 6-bit value of an alphabet character. *)
Definition b64_value (c : ascii) : option Z :=
  let n := Z.of_N (N_of_ascii c) in
  if (65 <=? n) && (n <=? 90) then Some (n - 65)
  else if (97 <=? n) && (n <=? 122) then Some (n - 71)
  else if (48 <=? n) && (n <=? 57) then Some (n + 4)
  else if n =? 43 then Some 62
  else if n =? 47 then Some 63
  else None.

Definition is_pad (c : ascii) : bool := Ascii.eqb c "=".

(** [binascii_find_valid(s, len, num)]: the character at position [num]
    among the characters of [s] that are [=] or in the alphabet. *)
Fixpoint find_valid (s : list ascii) (num : nat) : option ascii :=
  match s with
  | [] => None
  | c :: s' =>
      if is_pad c || match b64_value c with Some _ => true | None => false end
      then match num with O => Some c | S num' => find_valid s' num' end
      else find_valid s' num
  end.

Definition byte_of_Z (z : Z) : ascii := ascii_of_N (Z.to_N z).

(** The decoding loop; [acc] holds the output bytes in reverse order.
    [None] is the [TypeError] ("Incorrect padding") of [b64decode]. *)
Fixpoint a2b_loop (s : list ascii) (quad_pos leftchar leftbits : Z)
         (acc : list ascii) : option (list ascii) :=
  match s with
  | [] => if leftbits =? 0 then Some (rev acc) else None
  | c :: s' =>
      let n := N_of_ascii c in
      if (127 <? n)%N || Ascii.eqb c "013" || Ascii.eqb c "010" || Ascii.eqb c " "
      then a2b_loop s' quad_pos leftchar leftbits acc
      else if is_pad c then
        if (quad_pos <? 2)
           || ((quad_pos =? 2)
               && negb (match find_valid s 1 with
                        | Some c' => is_pad c' | None => false end))
        then a2b_loop s' quad_pos leftchar leftbits acc
        else Some (rev acc)               (* leftbits = 0; break *)
      else
        match b64_value c with
        | None => a2b_loop s' quad_pos leftchar leftbits acc
        | Some v =>
            let quad_pos' := Z.land (quad_pos + 1) 3 in
            let lc := Z.lor (Z.shiftl leftchar 6) v in
            let lb := leftbits + 6 in
            if 8 <=? lb then
              let lb' := lb - 8 in
              let byte := Z.land (Z.shiftr lc lb') 255 in
              a2b_loop s' quad_pos' (Z.land lc (Z.shiftl 1 lb' - 1)) lb'
                       (byte_of_Z byte :: acc)
            else a2b_loop s' quad_pos' lc lb acc
        end
  end.

Definition b64decode (s : string) : option string :=
  option_map string_of_list_ascii (a2b_loop (list_ascii_of_string s) 0 0 0 []).

(** [dict.get(k, d)] on [request.META]. *)
Definition meta_get (m : list (string * string)) (k d : string) : string :=
  match find (fun kv => String.eqb k (fst kv)) m with
  | Some kv => snd kv
  | None => d
  end.

(** [_is_api_key_correct(request)]; [api_key] is the setting
    [GECKOBOARD_API_KEY] ([None] when it is not set). *)
Definition is_api_key_correct (api_key : option string) (req : request) : M bool :=
  match api_key with
  | None => ret true
  | Some k =>
      match split_ws (meta_get (META req) "HTTP_AUTHORIZATION" "") with
      | [scheme; tok] =>
          if String.eqb (lower scheme) "basic" then
            match b64decode tok with
            | Some decoded => ret (String.eqb (user_part decoded) k)
            | None => raise TypeError
            end
          else ret false
      | _ => ret false
      end
  end.

Inductive response :=
| HttpResponse (c : content)
| HttpResponseForbidden (body : string).

Definition forbidden_body : string := "Geckoboard API key incorrect".

(** Lines 43-46 of [_wrapped_view]: call the view, convert its result,
    render it. *)
Definition serve (convert : val -> M val) (view_func : request -> M val)
           (req : request) : M response :=
  view_result <- view_func req ;;
  data <- convert view_result ;;
  t <- read_tree data ;;
  ret (HttpResponse (render req t)).

(** [WidgetDecorator.__call__(view_func)] applied to a request: the
    wrapped view, for the conversion [convert] of the decorator. *)
Definition wrapped_view (api_key : option string) (convert : val -> M val)
           (view_func : request -> M val) (req : request) : M response :=
  ok <- is_api_key_correct api_key req ;;
  if negb ok then ret (HttpResponseForbidden forbidden_body)
  else serve convert view_func req.

End Gate.

(* ------------------------------------------------------------------ *)
(** ** [base64.b64encode] (Python 2.7: [binascii.b2a_base64])

    The callers of the gate (the tests) build their Basic credentials with
    [base64.b64encode]; this is the encoder, so that the gate can be run on
    the headers they send. *)

Module B64Encode.
Import Py Gate.

(** [table_b2a_base64]: the character of each 6-bit value. *)
Definition b64_alphabet : string :=
  "ABCDEFGHIJKLMNOPQRSTUVWXYZabcdefghijklmnopqrstuvwxyz0123456789+/".

Definition b64_char (v : Z) : ascii :=
  match String.get (Z.to_nat v) b64_alphabet with Some c => c | None => "?"%char end.

(** The inner loop [while (leftbits >= 6)]: emit the pending 6-bit
    groups of [leftchar], high bits first; [leftbits] bounds the number of
    turns. [acc] holds the output characters in reverse order. *)
Fixpoint b2a_emit (fuel : nat) (leftchar leftbits : Z) (acc : list ascii) : Z * list ascii :=
  match fuel with
  | O => (leftbits, acc)
  | S fuel' =>
      if 6 <=? leftbits then
        let this_ch := Z.land (Z.shiftr leftchar (leftbits - 6)) 63 in
        b2a_emit fuel' leftchar (leftbits - 6) (b64_char this_ch :: acc)
      else (leftbits, acc)
  end.

(** The loop over the input bytes ([leftchar] is a C [unsigned int]),
    then the padding of the last group and the final newline. *)
Fixpoint b2a_loop (s : list ascii) (leftchar leftbits : Z) (acc : list ascii) : list ascii :=
  match s with
  | [] =>
      if leftbits =? 2 then
        rev ("010"%char :: "="%char :: "="%char :: b64_char (Z.shiftl (Z.land leftchar 3) 4) :: acc)
      else if leftbits =? 4 then
        rev ("010"%char :: "="%char :: b64_char (Z.shiftl (Z.land leftchar 15) 2) :: acc)
      else rev ("010"%char :: acc)
  | c :: s' =>
      let lc := Z.land (Z.lor (Z.shiftl leftchar 8) (Z.of_N (N_of_ascii c))) 4294967295 in
      let lb := leftbits + 8 in
      let '(lb', acc') := b2a_emit (Z.to_nat lb) lc lb acc in
      b2a_loop s' lc lb' acc'
  end.

(** [base64.b64encode(s)]: [binascii.b2a_base64(s)[:-1]], the newline
    dropped. *)
Definition b64encode (s : string) : string :=
  string_of_list_ascii (removelast (b2a_loop (list_ascii_of_string s) 0 0 [])).

End B64Encode.

(* ------------------------------------------------------------------ *)
(** ** Statement vocabulary

    Definitions used to state properties of the program; they are not part
    of the program. *)

Module SpecDefs.
Import Py Render.

(** The nodes a mapping entry [(tag, item)] should give: one [tag]
    element per entry of a sequence, one [tag] element otherwise. *)
Definition dict_entry_nodes (e : string * tree) : list xnode :=
  match snd e with
  | TTuple l | TList l => map (fun s => XElem (fst e) (build_xml s)) l
  | t => [XElem (fst e) (build_xml t)]
  end.

(** A request whose Basic credentials are not valid base64 (one data
    character, no padding). *)
Definition req_bad_padding : request :=
  {| POST := []; GET := []; META := [("HTTP_AUTHORIZATION", "Basic a")] |}.

(** A funnel item [(value, label)] as the view returns it. *)
Definition enc_pair (x : Z * string) : val := VTuple [VInt (fst x); VStr (snd x)].

(** The funnel entry made for an item: [{"value": v, "label": s}]. *)
Definition funnel_entry_obj (x : Z * string) : obj :=
  ODict [("value", VInt (fst x)); ("label", VStr (snd x))].

(** The axis mapping once the four recipe keys have been popped. *)
Definition recipe_removed (ka : list (string * val)) : list (string * val) :=
  assoc_remove "precision" (assoc_remove "points"
    (assoc_remove "max" (assoc_remove "min" ka))).

(** Funnel items in order of non-increasing value. *)
Definition value_ge (a b : Z * string) : Prop := (fst b <= fst a)%Z.

(** [d.get(k, default)] on an item list. *)
Definition get_default (kv : list (string * val)) (k : string) (d : val) : val :=
  match assoc k kv with Some x => x | None => d end.

End SpecDefs.

(* ------------------------------------------------------------------ *)
(** ** More statement vocabulary *)

Module ExtraDefs.
Import Py PyOps Decorators Render Gate.

(** The code of a character, as the C code reads a byte. *)
Definition byte (a : ascii) : Z := Z.of_N (N_of_ascii a).

(** The characters [binascii_find_valid] counts: [=] and the alphabet. *)
Definition b64_relevant (c : ascii) : bool :=
  is_pad c || match b64_value c with Some _ => true | None => false end.

(** [h1] still holds every object of [h]. *)
Definition heap_ext (h h1 : heap) : Prop := forall q o, h !! q = Some o -> h1 !! q = Some o.

(** What [if not isinstance(v, (tuple, list)): v = [v]] gives for [v] in
    the heap [h]; [None] for a dangling reference. *)
Definition seq_view (h : heap) (v : val) : option (list val) :=
  match v with
  | VTuple l => Some l
  | VRef p =>
      match h !! p with
      | Some (OList l) => Some l
      | Some (ODict _) => Some [v]
      | None => None
      end
  | _ => Some [v]
  end.

(** The items of a tuple or a list of the heap. *)
Definition as_seq (h : heap) (v : val) : option (list val) :=
  match v with
  | VTuple l => Some l
  | VRef p => match h !! p with Some (OList l) => Some l | _ => None end
  | _ => None
  end.

(** Whether [isinstance(v, (tuple, list))] holds in the heap [h];
    [None] for a dangling reference. *)
Definition seq_kind (h : heap) (v : val) : option bool :=
  match v with
  | VTuple _ => Some true
  | VRef p => match h !! p with
              | Some (OList _) => Some true
              | Some (ODict _) => Some false
              | None => None
              end
  | _ => Some false
  end.

(** The RAG item made from an element [x :: rest]. *)
Definition rag_kv (x : val) (rest : list val) : list (string * val) :=
  ("value", if is_none x then VStr "" else x) :: firstn 1 (map (pair "text") rest).

(** The text item made from an element [x :: rest]. *)
Definition text_kv (x : val) (rest : list val) : list (string * val) :=
  [("text", x); ("type", match rest with
                         | ty :: _ => if is_none ty then VInt TEXT_NONE else ty
                         | [] => VInt TEXT_NONE
                         end)].

(** The pie-chart item made from an element [x :: rest]. *)
Definition pie_kv (x : val) (rest : list val) : list (string * val) :=
  ("value", x) :: firstn 2 (combine ["label"; "colour"] rest).

(** The Geck-O-Meter bound made from [x :: rest]. *)
Definition meter_kv (x : val) (rest : list val) : list (string * val) :=
  ("value", x) :: firstn 1 (map (pair "text") rest).

(** [r] is a new [{"item": [...]}] mapping of [h'] whose list holds,
    for each element [x :: rest] of [xss], a new mapping [kv x rest]. *)
Definition items_result (h h' : heap) (kv : val -> list val -> list (string * val))
           (xss : list (list val)) (r : val) : Prop :=
  exists rr p ds, r = VRef rr /\
    h' !! rr = Some (ODict [("item", VRef p)]) /\ h' !! p = Some (OList ds) /\
    Forall2 (fun d xs => exists q x rest, xs = x :: rest /\ d = VRef q /\ h !! q = None /\
                           h' !! q = Some (ODict (kv x rest))) ds xss.

(** The line-chart axis [v] stored for the label [a]: a tuple or list
    is stored as it is (the same object), anything else in a new
    one-element list, [None] becoming [""]. *)
Definition axis_result (h h' : heap) (a v : val) : Prop :=
  (seq_kind h a = Some true /\ v = a) \/
  (seq_kind h a = Some false /\ exists q, v = VRef q /\ h !! q = None /\
     h' !! q = Some (OList [if is_none a then VStr "" else a])).

(** An axis point of the precision [prec]: an int for precision 0, a
    float otherwise. *)
Definition point_kind (prec y : val) : Prop :=
  if is_zero_num prec then exists z, y = VInt z else exists f, y = VFloat f.

(** A payload that is not a tuple, a list or a mapping. *)
Definition is_scalar (t : tree) : Prop :=
  match t with TTuple _ | TList _ | TDict _ => False | _ => True end.

(** Every text node of an XML node holds a scalar. *)
Fixpoint text_scalar (n : xnode) : Prop :=
  match n with
  | XElem _ ch => (fix all (l : list xnode) : Prop :=
                     match l with [] => True | x :: l' => text_scalar x /\ all l' end) ch
  | XText t => match t with TTuple _ | TList _ | TDict _ => False | _ => True end
  end.

(** Induction on payloads, through the items of sequences and mappings. *)
Section TreeInd.
Variable P : tree -> Prop.
Hypothesis Hscalar : forall t, is_scalar t -> P t.
Hypothesis Htuple : forall l, Forall P l -> P (TTuple l).
Hypothesis Hlist : forall l, Forall P l -> P (TList l).
Hypothesis Hdict : forall kv, Forall (fun e => P (snd e)) kv -> P (TDict kv).
Fixpoint tree_ind' (t : tree) : P t :=
  match t with
  | TTuple l => Htuple l ((fix go (l : list tree) : Forall P l :=
                  match l with [] => @Stdlib.Lists.List.Forall_nil _ _ | x :: l' => @Stdlib.Lists.List.Forall_cons _ _ x l' (tree_ind' x) (go l') end) l)
  | TList l => Hlist l ((fix go (l : list tree) : Forall P l :=
                  match l with [] => @Stdlib.Lists.List.Forall_nil _ _ | x :: l' => @Stdlib.Lists.List.Forall_cons _ _ x l' (tree_ind' x) (go l') end) l)
  | TDict kv => Hdict kv ((fix go (kv : list (string * tree)) : Forall (fun e => P (snd e)) kv :=
                  match kv with
                  | [] => @Stdlib.Lists.List.Forall_nil _ _
                  | e :: kv' => @Stdlib.Lists.List.Forall_cons _ _ e kv' (tree_ind' (snd e)) (go kv')
                  end) kv)
  | t => Hscalar t I
  end.
End TreeInd.

End ExtraDefs.

(* ------------------------------------------------------------------ *)
(** ** Reasoning about the monad *)

Module MonadFacts.
Import Py.

(** [wp m Q h]: if [m] returns normally from [h], [Q] holds of its value
    and final heap. *)
Definition wp {A} (m : M A) (Q : A -> heap -> Prop) (h : heap) : Prop :=
  match m h with
  | (inr a, h') => Q a h'
  | (inl _, _) => True
  end.

(** [keeps P m]: every object [o] at a location [q] with [P q o] is
    still there after [m], whatever the outcome of [m]. *)
Definition keeps (P : positive -> obj -> Prop) {A} (m : M A) : Prop :=
  forall h q o, P q o -> h !! q = Some o -> snd (m h) !! q = Some o.

Definition everywhere (q : positive) (o : obj) : Prop := True.
Definition is_dict (q : positive) (o : obj) : Prop :=
  match o with ODict _ => True | OList _ => False end.

(** [keeps_at P m h]: the same, for a run of [m] from the heap [h]. *)
Definition keeps_at (P : positive -> obj -> Prop) {A} (m : M A) (h : heap) : Prop :=
  forall q o, P q o -> h !! q = Some o -> snd (m h) !! q = Some o.

Lemma wp_bind {A B} (m : M A) (k : A -> M B) Q h :
  wp m (fun a h1 => wp (k a) Q h1) h -> wp (bind m k) Q h.
Proof. unfold wp, bind. destruct (m h) as [[e|a] h1]; auto. Qed.

Lemma wp_ret {A} (a : A) (Q : A -> heap -> Prop) h : Q a h -> wp (ret a) Q h.
Proof. auto. Qed.

Lemma wp_raise {A} e (Q : A -> heap -> Prop) h : wp (raise e) Q h.
Proof. exact I. Qed.

Lemma wp_lift {A} (r : R A) Q h : (forall a, r = inr a -> Q a h) -> wp (lift r) Q h.
Proof. unfold wp, lift. destruct r; auto. Qed.

Lemma wp_alloc o Q h :
  (forall p, h !! p = None -> Q (VRef p) (<[p := o]> h)) -> wp (alloc o) Q h.
Proof.
  intros HQ. unfold wp, alloc. apply HQ.
  apply not_elem_of_dom. apply is_fresh.
Qed.

Lemma wp_load p Q h : (forall o, h !! p = Some o -> Q o h) -> wp (load p) Q h.
Proof. unfold wp, load. destruct (h !! p) eqn:E; auto. Qed.

Lemma wp_store p o Q h : Q tt (<[p := o]> h) -> wp (store p o) Q h.
Proof. auto. Qed.

Lemma wp_of_option {A} e (x : option A) Q h :
  (forall a, x = Some a -> Q a h) -> wp (of_option e x) Q h.
Proof. unfold wp, of_option. destruct x; simpl; auto. Qed.

Lemma wp_mono {A} (m : M A) (Q Q' : A -> heap -> Prop) h :
  wp m Q h -> (forall a h', Q a h' -> Q' a h') -> wp m Q' h.
Proof. unfold wp. destruct (m h) as [[e|a] h1]; auto. Qed.

(** A computation that keeps the objects [P] selects can be stepped over,
    knowing only that those objects are still in place. *)
Lemma wp_keeps (P : positive -> obj -> Prop) {A} (m : M A) Q h :
  keeps P m ->
  (forall a h', m h = (inr a, h') ->
     (forall q o, P q o -> h !! q = Some o -> h' !! q = Some o) -> Q a h') ->
  wp m Q h.
Proof.
  intros Hk HQ. unfold wp. destruct (m h) as [[e|a] h1] eqn:E; auto.
  apply HQ; auto. intros q o HP Hq. pose proof (Hk h q o HP Hq) as H.
  rewrite E in H. exact H.
Qed.

(** *** Frame lemmas *)

Lemma keeps_ret P {A} (a : A) : keeps P (ret a).
Proof. intros h q o _ Hq. exact Hq. Qed.

Lemma keeps_raise P {A} e : keeps P (@raise A e).
Proof. intros h q o _ Hq. exact Hq. Qed.

Lemma keeps_lift P {A} (r : R A) : keeps P (lift r).
Proof. intros h q o _ Hq. exact Hq. Qed.

Lemma keeps_load P p : keeps P (load p).
Proof. intros h q o _ Hq. unfold load. destruct (h !! p); exact Hq. Qed.

Lemma keeps_of_option P {A} e (x : option A) : keeps P (of_option e x).
Proof. intros h q o _ Hq. destruct x; exact Hq. Qed.

Lemma keeps_alloc P o : keeps P (alloc o).
Proof.
  intros h q o' _ Hq. unfold alloc; simpl.
  rewrite lookup_insert_ne; [exact Hq|].
  intros Heq. pose proof (is_fresh (dom h)) as Hf. rewrite Heq in Hf.
  apply Hf. apply elem_of_dom. eauto.
Qed.

Lemma keeps_bind P {A B} (m : M A) (k : A -> M B) :
  keeps P m -> (forall a, keeps P (k a)) -> keeps P (bind m k).
Proof.
  intros Hm Hk h q o HP Hq. unfold bind.
  pose proof (Hm h q o HP Hq) as H1.
  destruct (m h) as [[e|a] h1]; simpl in *; [exact H1 | apply Hk; auto].
Qed.

Lemma keeps_mapM P {A B} (f : A -> M B) (l : list A) :
  (forall x, keeps P (f x)) -> keeps P (mapM f l).
Proof.
  intros Hf. induction l as [|x l IH]; simpl.
  - apply keeps_ret.
  - apply keeps_bind; [apply Hf|]. intros y.
    apply keeps_bind; [apply IH|]. intros ys. apply keeps_ret.
Qed.

Lemma keeps_weaken (P P' : positive -> obj -> Prop) {A} (m : M A) :
  keeps P m -> (forall q o, P' q o -> P q o) -> keeps P' m.
Proof. intros Hm HP h q o H' Hq. apply Hm; auto. Qed.

Lemma keeps_at_keeps P {A} (m : M A) h : keeps P m -> keeps_at P m h.
Proof. intros Hm. exact (Hm h). Qed.

Lemma keeps_at_bind P {A B} (m : M A) (k : A -> M B) h :
  keeps P m ->
  (forall a h1, m h = (inr a, h1) ->
     (forall q o, P q o -> h !! q = Some o -> h1 !! q = Some o) ->
     keeps_at P (k a) h1) ->
  keeps_at P (bind m k) h.
Proof.
  intros Hm Hk q o HP Hq. unfold bind.
  pose proof (Hm h q o HP Hq) as H1.
  destruct (m h) as [[e|a] h1] eqn:E; simpl in *; [exact H1|].
  apply (Hk a h1 eq_refl); auto.
  intros q' o' HP' Hq'. pose proof (Hm h q' o' HP' Hq') as H2. rewrite E in H2. exact H2.
Qed.

Create HintDb keeps_db.
#[export] Hint Resolve keeps_ret keeps_raise keeps_lift keeps_load
  keeps_of_option keeps_alloc : keeps_db.

(** Steps through binds and case analyses of a computation built from
    the frame lemmas. *)
Ltac keeps_tac :=
  repeat match goal with
    | |- forall _, _ => intros
    | |- keeps _ (bind _ _) => apply keeps_bind
    | |- keeps _ (mapM _ _) => apply keeps_mapM
    | |- keeps _ (match ?x with _ => _ end) => destruct x
    | |- keeps _ (if ?b then _ else _) => destruct b
    | |- keeps _ _ => solve [eauto with keeps_db]
    | |- keeps _ _ => progress (unfold
           seq_items, wrap_seq, py_iter, py_len, nth_index, py_index,
           getitem, dict_get, truthy in *)
    end.

Lemma keeps_seq_items P v : keeps P (seq_items v).
Proof. keeps_tac. Qed.
Lemma keeps_wrap_seq P v : keeps P (wrap_seq v).
Proof. keeps_tac. Qed.
Lemma keeps_py_iter P v : keeps P (py_iter v).
Proof. keeps_tac. Qed.
Lemma keeps_py_len P v : keeps P (py_len v).
Proof. keeps_tac. Qed.
Lemma keeps_nth_index P l i : keeps P (nth_index l i).
Proof. keeps_tac. Qed.
Lemma keeps_py_index P v i : keeps P (py_index v i).
Proof. keeps_tac. Qed.
Lemma keeps_getitem P v k : keeps P (getitem v k).
Proof. keeps_tac. Qed.
Lemma keeps_dict_get P v k d : keeps P (dict_get v k d).
Proof. keeps_tac. Qed.
Lemma keeps_truthy P v : keeps P (truthy v).
Proof. keeps_tac. Qed.

#[export] Hint Resolve keeps_seq_items keeps_wrap_seq keeps_py_iter
  keeps_py_len keeps_nth_index keeps_py_index keeps_getitem
  keeps_dict_get keeps_truthy : keeps_db.

End MonadFacts.

(* ------------------------------------------------------------------ *)
(** ** Frame properties of the normalisers *)

Module NormaliserFrames.
Import Py PyOps Decorators MonadFacts.

Ltac norm_keeps_tac :=
  repeat match goal with
    | |- forall _, _ => intros
    | |- keeps _ (bind _ _) => apply keeps_bind
    | |- keeps _ (mapM _ _) => apply keeps_mapM
    | |- keeps _ (match ?x with _ => _ end) => destruct x
    | |- keeps _ (if ?b then _ else _) => destruct b
    | |- keeps _ _ => solve [eauto with keeps_db]
    end.

Lemma keeps_rag_item P e : keeps P (rag_item e).
Proof. unfold rag_item. norm_keeps_tac. Qed.
Lemma keeps_text_item P e : keeps P (text_item e).
Proof. unfold text_item. norm_keeps_tac. Qed.
Lemma keeps_pie_item P e : keeps P (pie_item e).
Proof. unfold pie_item. norm_keeps_tac. Qed.
Lemma keeps_line_axis P a : keeps P (line_axis a).
Proof. unfold line_axis. norm_keeps_tac. Qed.
Lemma keeps_meter_bound P b : keeps P (meter_bound b).
Proof. unfold meter_bound. norm_keeps_tac. Qed.
Lemma keeps_funnel_entry P it : keeps P (funnel_entry it).
Proof. unfold funnel_entry. norm_keeps_tac. Qed.

#[export] Hint Resolve keeps_rag_item keeps_text_item keeps_pie_item
  keeps_line_axis keeps_meter_bound keeps_funnel_entry : keeps_db.

(** The normalisers that only create objects keep every object of the
    heap they start from. *)
Lemma keeps_widget_convert v : keeps everywhere (widget_convert v).
Proof. unfold widget_convert. norm_keeps_tac. Qed.
Lemma keeps_number_convert v : keeps everywhere (number_convert v).
Proof. unfold number_convert. norm_keeps_tac. Qed.
Lemma keeps_rag_convert v : keeps everywhere (rag_convert v).
Proof. unfold rag_convert. norm_keeps_tac. Qed.
Lemma keeps_text_convert v : keeps everywhere (text_convert v).
Proof. unfold text_convert. norm_keeps_tac. Qed.
Lemma keeps_pie_convert v : keeps everywhere (pie_convert v).
Proof. unfold pie_convert. norm_keeps_tac. Qed.
Lemma keeps_line_convert v : keeps everywhere (line_convert v).
Proof. unfold line_convert. norm_keeps_tac. Qed.
Lemma keeps_meter_convert v : keeps everywhere (meter_convert v).
Proof. unfold meter_convert. norm_keeps_tac. Qed.

(** [list.sort] writes only into a list object. *)
Lemma keeps_list_sort_reverse v : keeps is_dict (list_sort_reverse v).
Proof.
  intros h q o HP Hq. unfold list_sort_reverse.
  destruct v; try exact Hq.
  unfold bind, load. destruct (h !! p) as [[l|kv]|] eqn:Ep; simpl; try exact Hq.
  destruct (sort_desc l) as [l'|]; simpl; try exact Hq.
  rewrite lookup_insert_ne; [exact Hq|].
  intros ->. rewrite Ep in Hq. injection Hq as <-. exact HP.
Qed.

#[export] Hint Resolve keeps_list_sort_reverse : keeps_db.

(** The funnel normaliser never changes a dict. *)
Lemma keeps_funnel_convert v : keeps is_dict (funnel_convert v).
Proof.
  unfold funnel_convert. norm_keeps_tac;
    apply (keeps_weaken everywhere); eauto with keeps_db.
Qed.

End NormaliserFrames.

(* ------------------------------------------------------------------ *)
(** ** Running computations step by step *)

Module Exec.
Import Py PyOps SpecDefs MonadFacts.

Lemma run_bind {A B} (m : M A) (k : A -> M B) h a h1 :
  m h = (inr a, h1) -> bind m k h = k a h1.
Proof. intros E. unfold bind. rewrite E. reflexivity. Qed.

Lemma run_bind_exn {A B} (m : M A) (k : A -> M B) h e h1 :
  m h = (inl e, h1) -> bind m k h = (inl e, h1).
Proof. intros E. unfold bind. rewrite E. reflexivity. Qed.

Lemma run_alloc o (h : heap) :
  alloc o h = (inr (VRef (fresh (dom h))), <[fresh (dom h) := o]> h).
Proof. reflexivity. Qed.

Lemma fresh_free (h : heap) : h !! fresh (dom h) = None.
Proof. apply not_elem_of_dom. apply is_fresh. Qed.

Lemma fresh_ne (h : heap) q o : h !! q = Some o -> q <> fresh (dom h).
Proof. intros Hq ->. rewrite fresh_free in Hq. discriminate. Qed.

Lemma lookup_alloc_ne (h : heap) q o o' :
  h !! q = Some o -> <[fresh (dom h) := o']> h !! q = Some o.
Proof. intros Hq. rewrite lookup_insert_ne; [exact Hq|]. intros E. symmetry in E. exact (fresh_ne h q o Hq E). Qed.

Lemma run_load (h : heap) p o : h !! p = Some o -> load p h = (inr o, h).
Proof. intros E. unfold load. rewrite E. reflexivity. Qed.

Lemma run_getitem (h : heap) p kv k v :
  h !! p = Some (ODict kv) -> assoc k kv = Some v -> getitem (VRef p) k h = (inr v, h).
Proof. intros E Ek. unfold getitem. rewrite (run_bind _ _ _ _ _ (run_load _ _ _ E)). rewrite Ek. reflexivity. Qed.

Lemma run_dict_get (h : heap) p kv k d :
  h !! p = Some (ODict kv) ->
  dict_get (VRef p) k d h = (inr (match assoc k kv with Some x => x | None => d end), h).
Proof. intros E. unfold dict_get. rewrite (run_bind _ _ _ _ _ (run_load _ _ _ E)). reflexivity. Qed.

Lemma run_dict_pop_found (h : heap) p kv k x d :
  h !! p = Some (ODict kv) -> assoc k kv = Some x ->
  dict_pop (VRef p) k d h = (inr x, <[p := ODict (assoc_remove k kv)]> h).
Proof. intros E Ek. unfold dict_pop. rewrite (run_bind _ _ _ _ _ (run_load _ _ _ E)), Ek. reflexivity. Qed.

Lemma run_dict_pop_default (h : heap) p kv k x :
  h !! p = Some (ODict kv) -> assoc k kv = None ->
  dict_pop (VRef p) k (Some x) h = (inr x, h).
Proof. intros E Ek. unfold dict_pop. rewrite (run_bind _ _ _ _ _ (run_load _ _ _ E)), Ek. reflexivity. Qed.

Lemma run_setitem (h : heap) p kv k x :
  h !! p = Some (ODict kv) ->
  setitem (VRef p) k x h = (inr tt, <[p := ODict (assoc_set k x kv)]> h).
Proof. intros E. unfold setitem. rewrite (run_bind _ _ _ _ _ (run_load _ _ _ E)). reflexivity. Qed.

(** Allocating one object per element never fails; the objects are the
    images of the elements, in order, and the old objects stay. *)
Lemma run_mapM_alloc {A} (f : A -> obj) (xs : list A) (h : heap) :
  exists ds h', mapM (fun x => alloc (f x)) xs h = (inr ds, h') /\
    Forall2 (fun d x => exists q, d = VRef q /\ h' !! q = Some (f x)) ds xs /\
    (forall q o, h !! q = Some o -> h' !! q = Some o).
Proof.
  revert h. induction xs as [|x xs IH]; intros h.
  - exists [], h. repeat split; auto.
  - destruct (IH (<[fresh (dom h) := f x]> h)) as (ds & h' & E & Hf & Hk).
    exists (VRef (fresh (dom h)) :: ds), h'. split; [|split].
    + simpl. rewrite (run_bind _ _ _ _ _ (run_alloc _ _)).
      rewrite (run_bind _ _ _ _ _ E). reflexivity.
    + constructor; [|exact Hf]. exists (fresh (dom h)). split; [reflexivity|].
      apply Hk. apply lookup_insert_eq.
    + intros q o Hq. apply Hk. apply lookup_alloc_ne. exact Hq.
Qed.

Lemma run_dict_get_default (h : heap) p kv k d :
  h !! p = Some (ODict kv) -> dict_get (VRef p) k d h = (inr (get_default kv k d), h).
Proof. apply run_dict_get. Qed.

Lemma assoc_remove_absent k kv : assoc k kv = None -> assoc_remove k kv = kv.
Proof.
  induction kv as [|[k' v] kv IH]; intros E; [reflexivity|]. simpl in *.
  destruct (String.eqb k k'); [discriminate|]. rewrite IH; auto.
Qed.

(** [d.pop(k[, default])] on the dict at [a]: when it returns, the dict has
    lost the key (if it had it) and nothing else has changed. *)
Lemma wp_dict_pop_at (hc : heap) a kc k d :
  hc !! a = Some (ODict kc) ->
  wp (dict_pop (VRef a) k d) (fun _ h' => h' = <[a := ODict (assoc_remove k kc)]> hc) hc.
Proof.
  intros Ha. unfold wp, dict_pop. rewrite (run_bind _ _ _ _ _ (run_load _ _ _ Ha)).
  destruct (assoc k kc) eqn:E; [reflexivity|].
  destruct d; simpl; [|exact I].
  rewrite (assoc_remove_absent _ _ E). symmetry. apply insert_id. exact Ha.
Qed.

Lemma keeps_dict_pop_other p k d : keeps (fun q _ => q <> p) (dict_pop (VRef p) k d).
Proof.
  intros h q o Hq Ho. unfold dict_pop, bind, load.
  destruct (h !! p) as [[l|kv]|]; simpl; try exact Ho.
  destruct (assoc k kv); [|destruct d]; simpl; try exact Ho.
  rewrite lookup_insert_ne; auto.
Qed.

Lemma keeps_setitem_other p k x : keeps (fun q _ => q <> p) (setitem (VRef p) k x).
Proof.
  intros h q o Hq Ho. unfold setitem, bind, load.
  destruct (h !! p) as [[l|kv]|]; simpl; try exact Ho.
  rewrite lookup_insert_ne; auto.
Qed.

Lemma keeps_list_sort_other p : keeps (fun q _ => q <> p) (list_sort_reverse (VRef p)).
Proof.
  intros h q o Hq Ho. unfold list_sort_reverse, bind, load.
  destruct (h !! p) as [[l|kv]|]; simpl; try exact Ho.
  destruct (sort_desc l); simpl; try exact Ho.
  rewrite lookup_insert_ne; auto.
Qed.

Lemma truthy_pure v (h : heap) : snd (truthy v h) = h.
Proof.
  destruct v; try reflexivity. unfold truthy, bind, load.
  destruct (h !! p) as [[l|kv]|]; reflexivity.
Qed.

End Exec.

(* ------------------------------------------------------------------ *)
(** ** Properties of the gate, the renderers and the bullet graph *)

Module Claims.
Import Py PyOps Decorators Render Gate SpecDefs MonadFacts NormaliserFrames Exec.

(** X5. The cases of the gate that do answer 403 without calling the view:
    a header that is not two words, a scheme other than Basic, or a
    decoded user that differs from the key. *)
Lemma gate_forbids k convert view_func req h :
  (forall scheme tok,
     split_ws (meta_get (META req) "HTTP_AUTHORIZATION" "") = [scheme; tok] ->
     lower scheme <> "basic" \/
     exists decoded, b64decode tok = Some decoded /\ user_part decoded <> k) ->
  wrapped_view (Some k) convert view_func req h
  = (inr (HttpResponseForbidden forbidden_body), h).
Proof.
  intros Hcase. unfold wrapped_view, is_api_key_correct, bind.
  destruct (split_ws _) as [|scheme [|tok [|x rest]]] eqn:Es; try reflexivity.
  destruct (Hcase scheme tok eq_refl) as [Hne | [decoded [Hd Hu]]].
  - apply String.eqb_neq in Hne. rewrite Hne. reflexivity.
  - destruct (String.eqb (lower scheme) "basic"); [|reflexivity].
    rewrite Hd. apply String.eqb_neq in Hu. unfold ret. rewrite Hu. reflexivity.
Qed.

(** C1 (code bug). With the key ["abc"] configured, the header
    ["Basic a"], whose credentials are not valid base64, makes the gate
    raise [TypeError] (an HTTP 500) instead of answering 403 with the
    fixed body; the view is not called and the heap is unchanged. *)
Theorem gate_bad_base64_raises convert view_func h :
  wrapped_view (Some "abc") convert view_func req_bad_padding h = (inl TypeError, h).
Proof. reflexivity. Qed.

(** C2. When the Basic header decodes to a user part equal to the key,
    the wrapped view behaves as [serve]: it calls the view, converts its
    result and renders it. Without a configured key every request is
    served. *)
Theorem gate_passes k convert view_func req scheme tok decoded :
  split_ws (meta_get (META req) "HTTP_AUTHORIZATION" "") = [scheme; tok] ->
  lower scheme = "basic" ->
  b64decode tok = Some decoded ->
  user_part decoded = k ->
  (forall h, wrapped_view (Some k) convert view_func req h
             = serve convert view_func req h) /\
  (forall req' h, wrapped_view None convert view_func req' h
                  = serve convert view_func req' h).
Proof.
  intros Hs Hl Hd Hu. split.
  - intros h. unfold wrapped_view, is_api_key_correct, bind.
    rewrite Hs, Hl, Hd, <- Hu. simpl. rewrite String.eqb_refl. reflexivity.
  - intros req' h. reflexivity.
Qed.

Lemma gate_passes_witness :
  (split_ws (meta_get (META {| POST := []; GET := [];
      META := [("HTTP_AUTHORIZATION", "Basic YWJjOnB3")] |})
      "HTTP_AUTHORIZATION" "") = ["Basic"; "YWJjOnB3"] /\
   lower "Basic" = "basic" /\ b64decode "YWJjOnB3" = Some "abc:pw" /\
   user_part "abc:pw" = "abc") /\
  ((forall h, wrapped_view (Some "abc") widget_convert (fun _ => ret (VStr "test"))
      {| POST := []; GET := []; META := [("HTTP_AUTHORIZATION", "Basic YWJjOnB3")] |} h
      = serve widget_convert (fun _ => ret (VStr "test"))
      {| POST := []; GET := []; META := [("HTTP_AUTHORIZATION", "Basic YWJjOnB3")] |} h) /\
   (forall req' h, wrapped_view None widget_convert (fun _ => ret (VStr "test")) req' h
      = serve widget_convert (fun _ => ret (VStr "test")) req' h)).
Proof.
  split; [repeat split; vm_compute; reflexivity|].
  apply (gate_passes "abc" widget_convert (fun _ => ret (VStr "test"))
           {| POST := []; GET := []; META := [("HTTP_AUTHORIZATION", "Basic YWJjOnB3")] |}
           "Basic" "YWJjOnB3" "abc:pw"); vm_compute; reflexivity.
Defined.

(** C4 (code bug). With precision 0 the axis points are truncated by
    [int], not rounded: [{min: 0, max: 3, points: 5, precision: 0}] has
    step 0.75 (that is 6755399441055744 * 2^-53) and its second sample
    is exactly 0.75, which becomes 0 (rounding gives 1); the axis is
    [0, 0, 1, 2, 3], while the [precision] path of the same code rounds
    0.75 to 1.0. *)
Theorem bullet_precision0_truncates :
  axis_step (NInt 0) (NInt 3) (NInt 5) = inr (S754_finite false 6755399441055744 (-53)) /\
  axis_sample (S754_finite false 6755399441055744 (-53)) (NInt 0) 1
    = inr (VFloat (S754_finite false 6755399441055744 (-53))) /\
  axis_points (VInt 0) (VInt 3) (VInt 5) (VInt 0)
    = inr [VInt 0; VInt 0; VInt 1; VInt 2; VInt 3] /\
  py_format_round (VInt 0) (VFloat (S754_finite false 6755399441055744 (-53)))
    = inr (VFloat (PyFloat.round_decimal 0 (S754_finite false 6755399441055744 (-53)))) /\
  PyFloat.trunc (PyFloat.round_decimal 0 (S754_finite false 6755399441055744 (-53))) = Some 1.
Proof. repeat split; vm_compute; reflexivity. Qed.

(** C5 (code bug). A bullet graph whose axis is a list of numbers makes
    the normaliser raise [AttributeError] ([list] has no [get]); nothing
    is modified. *)
Theorem bullet_axis_list_raises r kr i ki a pts (h : heap) :
  h !! r = Some (ODict kr) -> assoc "item" kr = Some (VRef i) ->
  h !! i = Some (ODict ki) -> assoc "axis" ki = Some (VRef a) ->
  h !! a = Some (OList pts) ->
  bullet_convert (VRef r) h = (inl AttributeError, h).
Proof.
  intros Hr Hi Hki Ha Hka.
  unfold bullet_convert, getitem, dict_get, load, of_option, ret, bind.
  rewrite Hr, Hi, Hki, Ha, Hka. reflexivity.
Qed.

Lemma bullet_axis_list_raises_witness :
  let h : heap := <[1%positive := ODict [("item", VRef 2)]]>
                 (<[2%positive := ODict [("axis", VRef 3)]]>
                 (<[3%positive := OList [VInt 0; VInt 10; VInt 20]]> ∅)) in
  (h !! 1%positive = Some (ODict [("item", VRef 2)]) /\
   h !! 2%positive = Some (ODict [("axis", VRef 3)]) /\
   h !! 3%positive = Some (OList [VInt 0; VInt 10; VInt 20])) /\
  bullet_convert (VRef 1) h = (inl AttributeError, h).
Proof.
  intros h. split; [repeat split; vm_compute; reflexivity|].
  apply (bullet_axis_list_raises 1 [("item", VRef 2)] 2 [("axis", VRef 3)] 3
           [VInt 0; VInt 10; VInt 20] h); vm_compute; reflexivity.
Defined.

Lemma build_xml_dict_cons k t kv :
  build_xml (TDict ((k, t) :: kv)) = dict_entry_nodes (k, t) ++ build_xml (TDict kv).
Proof.
  destruct t; try reflexivity; unfold dict_entry_nodes; simpl; f_equal;
    induction l as [|x l IH]; simpl; congruence.
Qed.

Lemma build_xml_dict kv : build_xml (TDict kv) = flat_map dict_entry_nodes kv.
Proof.
  induction kv as [|[k t] kv IH]; [reflexivity|].
  rewrite build_xml_dict_cons, IH. reflexivity.
Qed.

(** C9. The XML document is one [root] element holding the nodes of the
    payload; a mapping gives, entry after entry in its iteration order,
    one element named after the key per item of a sequence value, and one
    element otherwise; the example payload gives two sibling [item]
    elements, each with its children in order. *)
Theorem render_xml_structure :
  (forall t, render_xml t = XElem "root" (build_xml t)) /\
  (forall kv, render_xml (TDict kv) = XElem "root" (flat_map dict_entry_nodes kv)) /\
  render_xml (TDict [("item", TList [TDict [("value", TInt 1); ("text", TStr "x")];
                                     TDict [("value", TInt 2)]])])
  = XElem "root" [XElem "item" [XElem "value" [XText (TInt 1)];
                                XElem "text" [XText (TStr "x")]];
                  XElem "item" [XElem "value" [XText (TInt 2)]]].
Proof.
  split; [reflexivity|]. split; [|reflexivity].
  intros kv. unfold render_xml. rewrite build_xml_dict. reflexivity.
Qed.

Lemma qd_get_absent q k d : ~ In k (map fst q) -> qd_get q k d = d.
Proof.
  unfold qd_get. revert d. induction q as [|[k' v] q IH]; intros d Hn; [reflexivity|].
  simpl in *. destruct (String.eqb_spec k k') as [->|Hne].
  - exfalso. apply Hn. left. reflexivity.
  - apply IH. intros Hi. apply Hn. right. exact Hi.
Qed.

(** C10. The format is [request.POST.get("format", "")], or the GET
    value when that is empty; ["2"] gives the JSON body, any other value
    (also an absent parameter) the XML document. *)
Theorem render_format_selection req t :
  (qd_get (POST req) "format" "" = "2" -> render req t = JsonBody t) /\
  (forall f, qd_get (POST req) "format" "" = f -> f <> "" -> f <> "2" ->
     render req t = XmlBody (render_xml t)) /\
  (qd_get (POST req) "format" "" = "" -> qd_get (GET req) "format" "" = "2" ->
     render req t = JsonBody t) /\
  (qd_get (POST req) "format" "" = "" -> qd_get (GET req) "format" "" <> "2" ->
     render req t = XmlBody (render_xml t)) /\
  (~ In "format" (map fst (POST req)) -> ~ In "format" (map fst (GET req)) ->
     render req t = XmlBody (render_xml t)).
Proof.
  unfold render. repeat split.
  - intros ->. reflexivity.
  - intros f -> Hf1 Hf2. apply String.eqb_neq in Hf1, Hf2.
    rewrite Hf1, Hf2. reflexivity.
  - intros -> ->. reflexivity.
  - intros -> Hg. apply String.eqb_neq in Hg. simpl. rewrite Hg. reflexivity.
  - intros Hp Hg. rewrite (qd_get_absent _ _ _ Hp), (qd_get_absent _ _ _ Hg).
    reflexivity.
Qed.

Lemma render_format_selection_witness :
  render {| POST := [("format", "2")]; GET := [("format", "1")]; META := [] |} (TInt 1)
    = JsonBody (TInt 1) /\
  render {| POST := [("format", "")]; GET := [("format", "2")]; META := [] |} (TInt 1)
    = JsonBody (TInt 1).
Proof.
  split.
  - apply (proj1 (render_format_selection
      {| POST := [("format", "2")]; GET := [("format", "1")]; META := [] |} (TInt 1))).
    reflexivity.
  - apply (proj1 (proj2 (proj2 (render_format_selection
      {| POST := [("format", "")]; GET := [("format", "2")]; META := [] |} (TInt 1))))).
    + reflexivity.
    + reflexivity.
Defined.

Lemma run_wrap_seq v o (h : heap) :
  seq_items v h = (inr o, h) ->
  wrap_seq v h = (inr (match o with Some l => l | None => [v] end), h).
Proof. intros Hs. unfold wrap_seq. rewrite (run_bind _ _ _ _ _ Hs). destruct o; reflexivity. Qed.

(** C8 (corrected). The number normaliser returns a new mapping
    [{"item": ds}] whose list holds one new mapping [{"value": x}] per
    element [x] of the input that is not [None], in order; the input is
    the sequence itself when it is a tuple or list, and the one-element
    list [[v]] otherwise, so that [None] alone gives [{"item": []}]. *)
Theorem number_convert_items v o (h : heap) :
  seq_items v h = (inr o, h) ->
  exists r p ds h', number_convert v h = (inr (VRef r), h') /\
    h' !! r = Some (ODict [("item", VRef p)]) /\ h' !! p = Some (OList ds) /\
    Forall2 (fun d x => exists q, d = VRef q /\ h' !! q = Some (ODict [("value", x)])) ds
      (List.filter (fun x => negb (is_none x))
                   (match o with Some l => l | None => [v] end)).
Proof.
  intros Hs.
  destruct (run_mapM_alloc (fun x => ODict [("value", x)])
              (List.filter (fun x => negb (is_none x))
                 (match o with Some l => l | None => [v] end)) h)
    as (ds & h1 & E & Hf & _).
  set (p := fresh (dom h1)). set (h2 := <[p := OList ds]> h1).
  exists (fresh (dom h2)), p, ds, (<[fresh (dom h2) := ODict [("item", VRef p)]]> h2).
  assert (Hp : h2 !! p = Some (OList ds)) by apply lookup_insert_eq.
  split; [|split; [|split]].
  - unfold number_convert. rewrite (run_bind _ _ _ _ _ (run_wrap_seq _ _ _ Hs)).
    rewrite (run_bind _ _ _ _ _ E). reflexivity.
  - apply lookup_insert_eq.
  - apply lookup_alloc_ne. exact Hp.
  - eapply Forall2_impl; [exact Hf|]. intros d x (q & -> & Hq).
    exists q. split; [reflexivity|]. apply lookup_alloc_ne, lookup_alloc_ne. exact Hq.
Qed.

Lemma number_convert_items_witness :
  seq_items (VInt 10) ∅ = (inr None, ∅) /\
  exists r p ds h', number_convert (VInt 10) ∅ = (inr (VRef r), h') /\
    h' !! r = Some (ODict [("item", VRef p)]) /\ h' !! p = Some (OList ds) /\
    Forall2 (fun d x => exists q, d = VRef q /\ h' !! q = Some (ODict [("value", x)])) ds
      (List.filter (fun x => negb (is_none x)) [VInt 10]).
Proof.
  split; [reflexivity|].
  apply (number_convert_items (VInt 10) None ∅). reflexivity.
Defined.

(** C8, counterexample: the bare scalar [None] gives [{"item": []}], not
    [{"item": [{"value": None}]}]. *)
Lemma number_convert_none_empty :
  exists r p h', number_convert VNone ∅ = (inr (VRef r), h') /\
    h' !! r = Some (ODict [("item", VRef p)]) /\ h' !! p = Some (OList []).
Proof.
  eexists _, _, _. split; [vm_compute; reflexivity|].
  split; vm_compute; reflexivity.
Qed.

Lemma mapR_Forall2 {A B} (f : A -> R B) l l' :
  mapR f l = inr l' -> Forall2 (fun x y => f x = inr y) l l'.
Proof.
  revert l'. induction l as [|x l IH]; intros l' E; simpl in E.
  - injection E as <-. constructor.
  - destruct (f x) as [e|y] eqn:Ef; [discriminate|]. simpl in E.
    destruct (mapR f l) as [e|ys]; [discriminate|]. simpl in E.
    injection E as <-. constructor; auto.
Qed.

Lemma length_range n : length (range n) = Z.to_nat n.
Proof. unfold range. rewrite length_map, length_seq. reflexivity. Qed.




Lemma py_cmp_enc a b :
  py_cmp (enc_pair a) (enc_pair b)
  = Some (match Z.compare (fst a) (fst b) with
          | Eq => String.compare (snd a) (snd b)
          | c => c
          end).
Proof.
  destruct a as [x s1], b as [y s2]. simpl.
  destruct (Z.compare x y); try reflexivity. destruct (String.compare s1 s2); reflexivity.
Qed.

Lemma insert_desc_enc x l :
  Sorted value_ge l ->
  exists l', insert_desc (enc_pair x) (map enc_pair l) = Some (map enc_pair l') /\
             Permutation (x :: l) l' /\ Sorted value_ge l'.
Proof.
  induction l as [|y l IH]; intros Hs.
  - exists [x]. split; [reflexivity|]. split; [reflexivity|]. repeat constructor.
  - assert (Eq1 : insert_desc (enc_pair x) (map enc_pair (y :: l))
                  = match py_cmp (enc_pair y) (enc_pair x) with
                    | Some Lt => Some (enc_pair x :: enc_pair y :: map enc_pair l)
                    | Some _ => option_map (cons (enc_pair y))
                                  (insert_desc (enc_pair x) (map enc_pair l))
                    | None => None
                    end) by reflexivity.
    rewrite Eq1, py_cmp_enc.
    assert (Hall : Forall (value_ge y) l) by (apply Sorted_extends; [intros a b c; unfold value_ge; lia|exact Hs]).
    assert (Hsl : Sorted value_ge l) by (inversion Hs; assumption).
    (* [y] smaller: [x] goes first *)
    assert (Hfirst : (fst y <= fst x)%Z ->
              exists l', Some (map enc_pair (x :: y :: l)) = Some (map enc_pair l') /\
                Permutation (x :: y :: l) l' /\ Sorted value_ge l').
    { intros Hle. exists (x :: y :: l). split; [reflexivity|]. split; [reflexivity|].
      constructor; [exact Hs|]. constructor. exact Hle. }
    (* otherwise [x] goes into the tail *)
    assert (Hlater : (fst x <= fst y)%Z ->
              exists l', option_map (cons (enc_pair y))
                           (insert_desc (enc_pair x) (map enc_pair l))
                         = Some (map enc_pair l') /\
                Permutation (x :: y :: l) l' /\ Sorted value_ge l').
    { intros Hle. destruct (IH Hsl) as (l'' & E & Hp & Hs'').
      exists (y :: l''). rewrite E. split; [reflexivity|]. split.
      - rewrite perm_swap. constructor. exact Hp.
      - constructor; [exact Hs''|].
        assert (Hf : Forall (value_ge y) l'').
        { rewrite <- Hp. constructor; [exact Hle|exact Hall]. }
        destruct l'' as [|z l'']; constructor. inversion Hf; assumption. }
    destruct (Z.compare_spec (fst y) (fst x)) as [H|H|H].
    + destruct (String.compare (snd y) (snd x)).
      * apply Hlater. lia.
      * apply Hfirst. lia.
      * apply Hlater. lia.
    + apply Hfirst. lia.
    + apply Hlater. lia.
Qed.

Lemma sort_desc_from_enc l acc :
  Sorted value_ge acc ->
  exists l', sort_desc_from (map enc_pair acc) (map enc_pair l) = Some (map enc_pair l') /\
             Permutation (acc ++ l) l' /\ Sorted value_ge l'.
Proof.
  revert acc. induction l as [|x l IH]; intros acc Hs.
  - exists acc. rewrite app_nil_r. split; [reflexivity|]. split; [reflexivity|exact Hs].
  - simpl. destruct (insert_desc_enc x acc Hs) as (acc' & E & Hp & Hs').
    rewrite E. destruct (IH acc' Hs') as (l' & E' & Hp' & Hs'').
    exists l'. split; [exact E'|]. split; [|exact Hs''].
    rewrite <- Hp'. rewrite <- Permutation_middle. simpl.
    change (x :: acc ++ l) with ((x :: acc) ++ l).
    apply Permutation_app_tail. exact Hp.
Qed.

(** [sorted(items, reverse=True)] on [(value, label)] items is a
    permutation in order of non-increasing value. *)
Lemma sort_desc_enc ps :
  exists ps', sort_desc (map enc_pair ps) = Some (map enc_pair ps') /\
              Permutation ps ps' /\ Sorted value_ge ps'.
Proof.
  destruct (sort_desc_from_enc ps [] (Sorted_nil _)) as (ps' & E & Hp & Hs).
  exists ps'. split; [exact E|]. split; [exact Hp|exact Hs].
Qed.

Lemma run_mapM_funnel_entry l (h : heap) :
  mapM funnel_entry (map enc_pair l) h = mapM (fun x => alloc (funnel_entry_obj x)) l h.
Proof.
  revert h. induction l as [|x l IH]; intros h; [reflexivity|].
  assert (E : funnel_entry (enc_pair x) h = alloc (funnel_entry_obj x) h) by reflexivity.
  simpl. unfold bind. rewrite E.
  destruct (alloc (funnel_entry_obj x) h) as [[e|y] h1]; [reflexivity|].
  rewrite IH. reflexivity.
Qed.

(** Steps over a computation that keeps dicts, carrying the fact that the
    dict at [r] is still in place. *)
Ltac step_keeping_dict Hr :=
  apply wp_bind; apply (wp_keeps is_dict);
  [ solve [norm_keeps_tac]
  | let Hk := fresh "Hk" in
    intros ? ? _ Hk;
    match type of Hr with _ !! ?q = Some ?o => specialize (Hk q o I Hr) end;
    clear Hr; rename Hk into Hr ].


#[local] Hint Resolve keeps_list_sort_other keeps_dict_pop_other keeps_setitem_other : keeps_db.

(** *** Frame lemmas for the funnel and the bullet graph *)

Lemma funnel_keeps_other r kr p (h : heap) :
  h !! r = Some (ODict kr) -> assoc "items" kr = Some (VRef p) ->
  keeps_at (fun q _ => q <> p) (funnel_convert (VRef r)) h.
Proof.
  intros Hr Hitems. unfold funnel_convert.
  apply keeps_at_bind; [apply keeps_alloc|]. intros d h1 E _.
  rewrite run_alloc in E. injection E as <- <-.
  apply keeps_at_bind; [apply keeps_dict_get|]. intros it h2 E _.
  rewrite (run_dict_get_default _ _ _ _ _ (lookup_alloc_ne _ _ _ _ Hr)) in E.
  injection E as <- <-. unfold get_default at 1. rewrite Hitems.
  apply keeps_at_keeps. norm_keeps_tac.
Qed.

Lemma funnel_unsorted_keeps r kr (h : heap) :
  h !! r = Some (ODict kr) ->
  (forall h0, truthy (get_default kr "sort" VNone) h0 = (inr false, h0)) ->
  keeps_at everywhere (funnel_convert (VRef r)) h.
Proof.
  intros Hr Hfalse. unfold funnel_convert.
  apply keeps_at_bind; [apply keeps_alloc|]. intros d h1 E _.
  rewrite run_alloc in E. injection E as <- <-.
  apply keeps_at_bind; [apply keeps_dict_get|]. intros it h2 E _.
  rewrite (run_dict_get_default _ _ _ _ _ (lookup_alloc_ne _ _ _ _ Hr)) in E.
  injection E as <- <-.
  apply keeps_at_bind; [apply keeps_dict_get|]. intros s h2 E _.
  rewrite (run_dict_get_default _ _ _ _ _ (lookup_alloc_ne _ _ _ _ Hr)) in E.
  injection E as <- <-.
  apply keeps_at_bind; [apply keeps_truthy|]. intros b h2 E _.
  rewrite Hfalse in E. injection E as <- <-.
  apply keeps_at_keeps. norm_keeps_tac.
Qed.

Lemma funnel_sorts_items r kr p l (h : heap) :
  h !! r = Some (ODict kr) -> assoc "items" kr = Some (VRef p) ->
  h !! p = Some (OList l) ->
  (forall h0, truthy (get_default kr "sort" VNone) h0 = (inr true, h0)) ->
  wp (funnel_convert (VRef r))
     (fun _ h' => exists l', sort_desc l = Some l' /\ h' !! p = Some (OList l')) h.
Proof.
  intros Hr Hitems Hp Htrue. unfold funnel_convert.
  apply wp_bind, wp_alloc. intros p0 Hp0.
  assert (Hr1 : <[p0 := OList []]> h !! r = Some (ODict kr)).
  { rewrite lookup_insert_ne; [exact Hr|]. intros ->. congruence. }
  assert (Hp1 : <[p0 := OList []]> h !! p = Some (OList l)).
  { rewrite lookup_insert_ne; [exact Hp|]. intros ->. congruence. }
  apply wp_bind. unfold wp at 1. rewrite (run_dict_get_default _ _ _ _ _ Hr1).
  replace (get_default kr "items" (VRef p0)) with (VRef p)
    by (unfold get_default; rewrite Hitems; reflexivity).
  apply wp_bind. unfold wp at 1. rewrite (run_dict_get_default _ _ _ _ _ Hr1).
  apply wp_bind. unfold wp at 1. rewrite Htrue.
  apply wp_bind. unfold wp at 1. unfold list_sort_reverse.
  rewrite (run_bind _ _ _ _ _ (run_load _ _ _ Hp1)). unfold of_option.
  destruct (sort_desc l) as [l'|] eqn:Es; [|exact I].
  cbn [bind ret store].
  apply (wp_keeps everywhere); [norm_keeps_tac|].
  intros a h' _ Hk. exists l'. split; [reflexivity|].
  apply Hk; [exact I|]. apply lookup_insert_eq.
Qed.

Lemma bullet_point_set r kr i ki a ka (h : heap) :
  h !! r = Some (ODict kr) -> assoc "item" kr = Some (VRef i) ->
  h !! i = Some (ODict ki) -> assoc "axis" ki = Some (VRef a) ->
  h !! a = Some (ODict ka) ->
  (forall h0, truthy (get_default ka "point" VNone) h0 = (inr true, h0)) ->
  bullet_convert (VRef r) h = (inr (VRef r), h).
Proof.
  intros Hr Hi Hki Ha Hka Htrue. unfold bullet_convert.
  rewrite (run_bind _ _ _ _ _ (run_getitem _ _ _ _ _ Hr Hi)).
  rewrite (run_bind _ _ _ _ _ (run_getitem _ _ _ _ _ Hki Ha)).
  rewrite (run_bind _ _ _ _ _ (run_dict_get_default _ _ _ _ _ Hka)).
  rewrite (run_bind _ _ _ _ _ (Htrue h)). reflexivity.
Qed.

Lemma bullet_keeps_other r kr i ki a ka (h : heap) :
  h !! r = Some (ODict kr) -> assoc "item" kr = Some (VRef i) ->
  h !! i = Some (ODict ki) -> assoc "axis" ki = Some (VRef a) ->
  h !! a = Some (ODict ka) -> r <> a -> i <> a ->
  keeps_at (fun q _ => q <> a) (bullet_convert (VRef r)) h.
Proof.
  intros Hr Hi Hki Ha Hka Hra Hia. unfold bullet_convert.
  apply keeps_at_bind; [apply keeps_getitem|]. intros it h1 E _.
  rewrite (run_getitem _ _ _ _ _ Hr Hi) in E. injection E as <- <-.
  apply keeps_at_bind; [apply keeps_getitem|]. intros ax h1 E _.
  rewrite (run_getitem _ _ _ _ _ Hki Ha) in E. injection E as <- <-.
  apply keeps_at_bind; [apply keeps_dict_get|]. intros pt h1 E _.
  rewrite (run_dict_get_default _ _ _ _ _ Hka) in E. injection E as <- <-.
  apply keeps_at_bind; [apply keeps_truthy|]. intros b h1 E _.
  pose proof (truthy_pure (get_default ka "point" VNone) h) as Eh.
  rewrite E in Eh. simpl in Eh. subst h1. clear E.
  destruct b; cbv beta iota; [apply keeps_at_keeps, keeps_ret|].
  apply keeps_at_bind; [apply keeps_getitem|]. intros it h1 E _.
  rewrite (run_getitem _ _ _ _ _ Hr Hi) in E. injection E as <- <-.
  apply keeps_at_bind; [apply keeps_getitem|]. intros ax h1 E _.
  rewrite (run_getitem _ _ _ _ _ Hki Ha) in E. injection E as <- <-.
  clear Hka.
  do 6 (apply keeps_at_bind; [solve [eauto with keeps_db]|];
        let E := fresh "E" in let Hk := fresh "Hk" in
        intros ? ? E Hk;
        pose proof (Hk _ _ Hra Hr) as Hr'; pose proof (Hk _ _ Hia Hki) as Hki';
        clear E Hk Hr Hki; rename Hr' into Hr, Hki' into Hki).
  apply keeps_at_bind; [apply keeps_getitem|]. intros it hA E _.
  rewrite (run_getitem _ _ _ _ _ Hr Hi) in E. injection E as <- <-.
  apply keeps_at_bind; [apply keeps_getitem|]. intros ax hB E _.
  rewrite (run_getitem _ _ _ _ _ Hki Ha) in E. injection E as <- <-.
  apply keeps_at_keeps. norm_keeps_tac.
Qed.

Lemma bullet_sets_point r kr i ki a ka (h : heap) :
  h !! r = Some (ODict kr) -> assoc "item" kr = Some (VRef i) ->
  h !! i = Some (ODict ki) -> assoc "axis" ki = Some (VRef a) ->
  h !! a = Some (ODict ka) -> r <> a -> i <> a ->
  (forall h0, truthy (get_default ka "point" VNone) h0 = (inr false, h0)) ->
  wp (bullet_convert (VRef r))
     (fun v h' => v = VRef r /\ exists pl pts,
        h' !! a = Some (ODict (assoc_set "point" (VRef pl) (recipe_removed ka))) /\
        h' !! pl = Some (OList pts)) h.
Proof.
  intros Hr Hi Hki Ha Hka Hra Hia Hfalse. unfold bullet_convert.
  apply wp_bind. unfold wp at 1. rewrite (run_getitem _ _ _ _ _ Hr Hi).
  apply wp_bind. unfold wp at 1. rewrite (run_getitem _ _ _ _ _ Hki Ha).
  apply wp_bind. unfold wp at 1. rewrite (run_dict_get_default _ _ _ _ _ Hka).
  apply wp_bind. unfold wp at 1. rewrite (Hfalse h). cbv beta iota.
  apply wp_bind. unfold wp at 1. rewrite (run_getitem _ _ _ _ _ Hr Hi).
  apply wp_bind. unfold wp at 1. rewrite (run_getitem _ _ _ _ _ Hki Ha).
  apply wp_bind. eapply wp_mono; [apply (wp_dict_pop_at _ _ _ _ _ Hka)|].
  intros mn h1 ->.
  apply wp_bind. eapply wp_mono; [apply wp_dict_pop_at, lookup_insert_eq|].
  intros mx h2 ->.
  apply wp_bind. eapply wp_mono; [apply wp_dict_pop_at, lookup_insert_eq|].
  intros n h3 ->.
  apply wp_bind. eapply wp_mono; [apply wp_dict_pop_at, lookup_insert_eq|].
  intros prec h4 ->.
  rewrite !insert_insert_eq.
  change (assoc_remove "precision" (assoc_remove "points"
            (assoc_remove "max" (assoc_remove "min" ka)))) with (recipe_removed ka).
  apply wp_bind, wp_lift. intros pts _.
  apply wp_bind, wp_alloc. intros pl Hpl.
  assert (Hpa : pl <> a) by (intros ->; rewrite lookup_insert_eq in Hpl; discriminate).
  assert (HrH : <[pl := OList pts]> (<[a := ODict (recipe_removed ka)]> h) !! r
                = Some (ODict kr)).
  { rewrite lookup_insert_ne, lookup_insert_ne; auto.
    intros ->. rewrite lookup_insert_ne in Hpl; congruence. }
  assert (HiH : <[pl := OList pts]> (<[a := ODict (recipe_removed ka)]> h) !! i
                = Some (ODict ki)).
  { rewrite lookup_insert_ne, lookup_insert_ne; auto.
    intros ->. rewrite lookup_insert_ne in Hpl; congruence. }
  assert (HaH : <[pl := OList pts]> (<[a := ODict (recipe_removed ka)]> h) !! a
                = Some (ODict (recipe_removed ka))).
  { rewrite lookup_insert_ne; [apply lookup_insert_eq|congruence]. }
  apply wp_bind. unfold wp at 1. rewrite (run_getitem _ _ _ _ _ HrH Hi).
  apply wp_bind. unfold wp at 1. rewrite (run_getitem _ _ _ _ _ HiH Ha).
  apply wp_bind. unfold wp at 1. rewrite (run_setitem _ _ _ _ _ HaH).
  apply wp_ret. split; [reflexivity|]. exists pl, pts. split.
  - apply lookup_insert_eq.
  - rewrite lookup_insert_ne; [apply lookup_insert_eq|congruence].
Qed.





End Claims.

(* ------------------------------------------------------------------ *)
(** ** More properties of the code *)

Module Extras.
Import Py PyOps Decorators Render Gate B64Encode SpecDefs ExtraDefs MonadFacts.
Import NormaliserFrames Exec Claims.

Lemma lor_shiftl_add x y k : 0 <= k -> 0 <= y < 2 ^ k ->
  Z.lor (Z.shiftl x k) y = x * 2 ^ k + y.
Proof.
  intros Hk Hy.
  assert (H0 : Z.land (Z.shiftl x k) y = 0).
  { apply Z.bits_inj'. intros n Hn. rewrite Z.land_spec, Z.bits_0.
    destruct (Z.lt_ge_cases n k) as [Hl|Hl].
    - rewrite Z.shiftl_spec_low by lia. reflexivity.
    - rewrite <- (Z.mod_small y (2 ^ k)) by lia.
      rewrite Z.mod_pow2_bits_high by lia. apply Bool.andb_false_r. }
  rewrite <- Z.shiftl_mul_pow2 by lia.
  rewrite Z.add_nocarry_lxor by exact H0. rewrite Z.lxor_lor by exact H0. reflexivity.
Qed.

Lemma land_low x n m : 0 <= n -> m = 2 ^ n - 1 -> Z.land x m = x mod 2 ^ n.
Proof.
  intros Hn ->. rewrite <- Z.land_ones by lia. f_equal. rewrite Z.ones_equiv. lia.
Qed.

Lemma b2a_emit_acc f lc lb acc :
  b2a_emit f lc lb acc = (fst (b2a_emit f lc lb []), snd (b2a_emit f lc lb []) ++ acc).
Proof.
  revert lb acc. induction f as [|f IH]; intros lb acc; simpl; [reflexivity|].
  destruct (6 <=? lb); [|reflexivity].
  rewrite IH, (IH _ [_]). simpl. rewrite <- app_assoc. reflexivity.
Qed.

Lemma b2a_loop_acc s lc lb acc : b2a_loop s lc lb acc = rev acc ++ b2a_loop s lc lb [].
Proof.
  revert lc lb acc. induction s as [|c s IH]; intros lc lb acc; simpl.
  - destruct (lb =? 2); [|destruct (lb =? 4)]; simpl; repeat rewrite <- app_assoc; reflexivity.
  - rewrite b2a_emit_acc. destruct (b2a_emit _ _ _ []) as [lb' out]. simpl.
    rewrite IH, (IH _ _ out). rewrite rev_app_distr, app_assoc. reflexivity.
Qed.

Lemma byte_range a : 0 <= byte a < 256.
Proof. unfold byte. pose proof (N_ascii_bounded a). lia. Qed.

Lemma byte_of_Z_byte a : byte_of_Z (byte a) = a.
Proof. unfold byte_of_Z, byte. rewrite N2Z.id. apply ascii_N_embedding. Qed.

Lemma lor_shiftl_byte x a : Z.lor (Z.shiftl x 8) (byte a) = x * 256 + byte a.
Proof. pose proof (byte_range a). rewrite lor_shiftl_add by lia. reflexivity. Qed.

Lemma shiftr_lit x k : 0 <= k -> Z.shiftr x k = x / 2 ^ k.
Proof. intros. apply Z.shiftr_div_pow2. lia. Qed.

Ltac to_arith :=
  repeat first
    [ rewrite (land_low _ 2 3) by (lia || reflexivity)
    | rewrite (land_low _ 4 15) by (lia || reflexivity)
    | rewrite (land_low _ 6 63) by (lia || reflexivity)
    | rewrite (land_low _ 8 255) by (lia || reflexivity)
    | rewrite (land_low _ 32 4294967295) by (lia || reflexivity)
    | rewrite lor_shiftl_byte
    | rewrite shiftr_lit by lia
    | rewrite Z.shiftl_mul_pow2 by lia ];
  simpl (2 ^ _).

Lemma b2a_chunk a b c s lc :
  exists lc', b2a_loop (a :: b :: c :: s) lc 0 []
    = [b64_char (byte a / 4); b64_char (byte a mod 4 * 16 + byte b / 16);
       b64_char (byte b mod 16 * 4 + byte c / 64); b64_char (byte c mod 64)]
      ++ b2a_loop s lc' 0 [].
Proof.
  eexists. cbn [b2a_loop b2a_emit]. simpl. rewrite b2a_loop_acc. simpl.
  change (0 + 8 - 6 + 8 - 6 + 8 - 6 - 6) with 0.
  change (0 + 8 - 6 + 8 - 6 + 8 - 6) with 6.
  change (0 + 8 - 6 + 8 - 6) with 4.
  change (0 + 8 - 6) with 2.
  change (Z.of_N (N_of_ascii a)) with (byte a).
  change (Z.of_N (N_of_ascii b)) with (byte b).
  change (Z.of_N (N_of_ascii c)) with (byte c).
  pose proof (byte_range a). pose proof (byte_range b). pose proof (byte_range c).
  f_equal; [|f_equal; [|f_equal; [|f_equal]]]; try reflexivity;
    f_equal; to_arith; Z.div_mod_to_equations; lia.
Qed.

Lemma b2a_tail1 a lc :
  b2a_loop [a] lc 0 [] = [b64_char (byte a / 4); b64_char (byte a mod 4 * 16); "="%char; "="%char; "010"%char].
Proof.
  cbn [b2a_loop b2a_emit]. simpl.
  change (Z.of_N (N_of_ascii a)) with (byte a).
  pose proof (byte_range a).
  do 2 (apply (f_equal2 cons); [f_equal; to_arith; Z.div_mod_to_equations; lia|]). reflexivity.
Qed.

Lemma b2a_tail2 a b lc :
  b2a_loop [a; b] lc 0 [] = [b64_char (byte a / 4); b64_char (byte a mod 4 * 16 + byte b / 16);
                             b64_char (byte b mod 16 * 4); "="%char; "010"%char].
Proof.
  cbn [b2a_loop b2a_emit]. simpl.
  change (Z.of_N (N_of_ascii a)) with (byte a).
  change (Z.of_N (N_of_ascii b)) with (byte b).
  pose proof (byte_range a). pose proof (byte_range b).
  do 3 (apply (f_equal2 cons); [f_equal; to_arith; Z.div_mod_to_equations; lia|]). reflexivity.
Qed.

Lemma b64_char_spec v : 0 <= v < 64 ->
  ((127 <? N_of_ascii (b64_char v))%N || Ascii.eqb (b64_char v) "013"
   || Ascii.eqb (b64_char v) "010" || Ascii.eqb (b64_char v) " ") = false /\
  is_pad (b64_char v) = false /\ b64_value (b64_char v) = Some v.
Proof.
  intros Hv.
  assert (Hall : forallb (fun n =>
    let w := Z.of_nat n in
    negb ((127 <? N_of_ascii (b64_char w))%N || Ascii.eqb (b64_char w) "013"
          || Ascii.eqb (b64_char w) "010" || Ascii.eqb (b64_char w) " ")
    && negb (is_pad (b64_char w))
    && match b64_value (b64_char w) with Some x => x =? w | None => false end)
    (seq 0 64) = true) by (vm_compute; reflexivity).
  rewrite forallb_forall in Hall.
  specialize (Hall (Z.to_nat v) ltac:(apply in_seq; lia)). simpl in Hall.
  rewrite Z2Nat.id in Hall by lia.
  destruct (_ || _); [discriminate|]. destruct (is_pad _); [discriminate|].
  destruct (b64_value _) as [x|]; [|discriminate].
  apply Z.eqb_eq in Hall. subst. auto.
Qed.

Lemma a2b_valid v s q lc lb acc :
  0 <= v < 64 ->
  a2b_loop (b64_char v :: s) q lc lb acc =
    (let quad_pos' := Z.land (q + 1) 3 in
     let lc' := Z.lor (Z.shiftl lc 6) v in
     let lb' := lb + 6 in
     if 8 <=? lb' then
       a2b_loop s quad_pos' (Z.land lc' (Z.shiftl 1 (lb' - 8) - 1)) (lb' - 8)
                (byte_of_Z (Z.land (Z.shiftr lc' (lb' - 8)) 255) :: acc)
     else a2b_loop s quad_pos' lc' lb' acc).
Proof.
  intros Hv. destruct (b64_char_spec v Hv) as (H1 & H2 & H3).
  cbn [a2b_loop]. rewrite H1, H2, H3. reflexivity.
Qed.

Lemma a2b_step0 v s acc : 0 <= v < 64 ->
  a2b_loop (b64_char v :: s) 0 0 0 acc = a2b_loop s 1 v 6 acc.
Proof. intros Hv. rewrite a2b_valid by exact Hv. reflexivity. Qed.

Lemma a2b_step1 v s lc acc : 0 <= v < 64 ->
  a2b_loop (b64_char v :: s) 1 lc 6 acc
  = a2b_loop s 2 (Z.land (Z.lor (Z.shiftl lc 6) v) 15) 4
      (byte_of_Z (Z.land (Z.shiftr (Z.lor (Z.shiftl lc 6) v) 4) 255) :: acc).
Proof. intros Hv. rewrite a2b_valid by exact Hv. reflexivity. Qed.

Lemma a2b_step2 v s lc acc : 0 <= v < 64 ->
  a2b_loop (b64_char v :: s) 2 lc 4 acc
  = a2b_loop s 3 (Z.land (Z.lor (Z.shiftl lc 6) v) 3) 2
      (byte_of_Z (Z.land (Z.shiftr (Z.lor (Z.shiftl lc 6) v) 2) 255) :: acc).
Proof. intros Hv. rewrite a2b_valid by exact Hv. reflexivity. Qed.

Lemma a2b_step3 v s lc acc : 0 <= v < 64 ->
  a2b_loop (b64_char v :: s) 3 lc 2 acc
  = a2b_loop s 0 (Z.land (Z.lor (Z.shiftl lc 6) v) 0) 0
      (byte_of_Z (Z.land (Z.shiftr (Z.lor (Z.shiftl lc 6) v) 0) 255) :: acc).
Proof. intros Hv. rewrite a2b_valid by exact Hv. reflexivity. Qed.

Lemma lor_shiftl6 x v : 0 <= v < 64 -> Z.lor (Z.shiftl x 6) v = x * 64 + v.
Proof. intros Hv. rewrite lor_shiftl_add by lia. reflexivity. Qed.

Lemma byte_eq a z : z = byte a -> byte_of_Z z = a.
Proof. intros ->. apply byte_of_Z_byte. Qed.

Ltac sextet := Z.div_mod_to_equations; lia.

Lemma a2b_chunk a b c s acc :
  a2b_loop (b64_char (byte a / 4) :: b64_char (byte a mod 4 * 16 + byte b / 16) ::
            b64_char (byte b mod 16 * 4 + byte c / 64) :: b64_char (byte c mod 64) :: s) 0 0 0 acc
  = a2b_loop s 0 0 0 (c :: b :: a :: acc).
Proof.
  pose proof (byte_range a). pose proof (byte_range b). pose proof (byte_range c).
  rewrite a2b_step0, a2b_step1, a2b_step2, a2b_step3 by sextet.
  rewrite Z.land_0_r.
  rewrite !lor_shiftl6 by (to_arith; sextet).
  f_equal. f_equal; [|f_equal; [|f_equal]]; apply byte_eq; to_arith; sextet.
Qed.

Lemma a2b_tail1 a acc :
  a2b_loop [b64_char (byte a / 4); b64_char (byte a mod 4 * 16); "="%char; "="%char] 0 0 0 acc
  = Some (rev (a :: acc)).
Proof.
  pose proof (byte_range a).
  rewrite a2b_step0, a2b_step1 by sextet.
  rewrite lor_shiftl6 by sextet.
  rewrite (byte_eq a) by (to_arith; sextet). reflexivity.
Qed.

Lemma a2b_tail2 a b acc :
  a2b_loop [b64_char (byte a / 4); b64_char (byte a mod 4 * 16 + byte b / 16);
            b64_char (byte b mod 16 * 4); "="%char] 0 0 0 acc
  = Some (rev (b :: a :: acc)).
Proof.
  pose proof (byte_range a). pose proof (byte_range b).
  rewrite a2b_step0, a2b_step1, a2b_step2 by sextet.
  rewrite !lor_shiftl6 by (to_arith; sextet).
  rewrite (byte_eq b), (byte_eq a) by (to_arith; sextet). reflexivity.
Qed.

Lemma b2a_loop_newline s lc lb : exists l, b2a_loop s lc lb [] = l ++ ["010"%char].
Proof.
  revert lc lb. induction s as [|c s IH]; intros lc lb; simpl.
  - destruct (lb =? 2); [|destruct (lb =? 4)].
    + exists [b64_char (Z.shiftl (Z.land lc 3) 4); "="%char; "="%char]. reflexivity.
    + exists [b64_char (Z.shiftl (Z.land lc 15) 2); "="%char]. reflexivity.
    + exists []. reflexivity.
  - rewrite b2a_emit_acc. destruct (b2a_emit _ _ _ []) as [lb' out]. simpl.
    rewrite b2a_loop_acc. destruct (IH (Z.land (Z.lor (Z.shiftl lc 8) (Z.of_N (N_of_ascii c))) 4294967295) lb') as [l ->].
    exists (rev (out ++ []) ++ l). rewrite app_assoc. reflexivity.
Qed.

Lemma a2b_b2a n : forall s lc acc, (List.length s <= n)%nat ->
  a2b_loop (removelast (b2a_loop s lc 0 [])) 0 0 0 acc = Some (rev acc ++ s).
Proof.
  induction n as [|n IH]; intros s lc acc Hn.
  - destruct s; [|simpl in Hn; lia]. simpl. rewrite app_nil_r. reflexivity.
  - destruct s as [|a [|b [|c s]]].
    + simpl. rewrite app_nil_r. reflexivity.
    + rewrite b2a_tail1. simpl removelast. rewrite a2b_tail1. reflexivity.
    + rewrite b2a_tail2. simpl removelast. rewrite a2b_tail2. simpl. rewrite <- app_assoc. reflexivity.
    + destruct (b2a_chunk a b c s lc) as [lc' ->].
      destruct (b2a_loop_newline s lc' 0) as [l El].
      rewrite removelast_app by (rewrite El; destruct l; discriminate).
      simpl app. rewrite a2b_chunk. rewrite IH by (simpl in Hn; lia).
      simpl. rewrite <- !app_assoc. reflexivity.
Qed.

Lemma b64_decode_encode s : b64decode (b64encode s) = Some s.
Proof.
  unfold b64decode, b64encode. rewrite list_ascii_of_string_of_list_ascii.
  rewrite (a2b_b2a (List.length (list_ascii_of_string s))) by lia. simpl.
  rewrite string_of_list_ascii_of_string. reflexivity.
Qed.

(** X1. Decoding inverts the encoder the callers use: for every byte string
    [s], [base64.b64decode(base64.b64encode(s))] is [s]. *)
Theorem b64_round_trip s : b64decode (b64encode s) = Some s.
Proof. exact (b64_decode_encode s). Qed.

Lemma find_valid_cons c s n :
  find_valid (c :: s) n
  = if b64_relevant c then match n with O => Some c | S n' => find_valid s n' end
    else find_valid s n.
Proof. reflexivity. Qed.

Lemma find_valid_filter s n : find_valid s n = find_valid (List.filter b64_relevant s) n.
Proof.
  revert n. induction s as [|c s IH]; intros n; [reflexivity|].
  rewrite find_valid_cons. cbn [List.filter]. destruct (b64_relevant c) eqn:E.
  - rewrite find_valid_cons, E. destruct n; [reflexivity|]. apply IH.
  - apply IH.
Qed.

Lemma relevant_not_skipped c : b64_relevant c = true ->
  ((127 <? N_of_ascii c)%N || Ascii.eqb c "013" || Ascii.eqb c "010" || Ascii.eqb c " ") = false.
Proof. destruct c as [[] [] [] [] [] [] [] []]; vm_compute; congruence. Qed.

Lemma a2b_filter s q lc lb acc :
  a2b_loop s q lc lb acc = a2b_loop (List.filter b64_relevant s) q lc lb acc.
Proof.
  revert q lc lb acc. induction s as [|c s IH]; intros q lc lb acc; [reflexivity|].
  cbn [List.filter]. destruct (b64_relevant c) eqn:Er.
  - pose proof (find_valid_filter (c :: s) 1) as Hf. cbn [List.filter] in Hf. rewrite Er in Hf.
    cbn [a2b_loop]. rewrite (relevant_not_skipped c Er), Hf.
    destruct (is_pad c); [destruct (_ || _); [apply IH|reflexivity]|].
    destruct (b64_value c); [|apply IH]. destruct (8 <=? _); apply IH.
  - unfold b64_relevant in Er. apply Bool.orb_false_iff in Er as [Hp Hv].
    cbn [a2b_loop]. rewrite Hp. destruct (b64_value c); [discriminate|].
    destruct (_ || _); apply IH.
Qed.

(** X2. [base64.b64decode] only looks at the alphabet characters and [=]:
    the other characters of the input are ignored. *)
Theorem b64decode_filter s :
  b64decode s = b64decode (string_of_list_ascii (List.filter b64_relevant (list_ascii_of_string s))).
Proof.
  unfold b64decode. rewrite list_ascii_of_string_of_list_ascii. rewrite a2b_filter. reflexivity.
Qed.

Lemma string_app_assoc (a b c : string) : ((a ++ b) ++ c)%string = (a ++ (b ++ c))%string.
Proof. induction a as [|x a IH]; [reflexivity|]. exact (f_equal (String x) IH). Qed.

Lemma string_app_nil_r (a : string) : (a ++ "")%string = a.
Proof. induction a as [|x a IH]; [reflexivity|]. exact (f_equal (String x) IH). Qed.

Lemma split_ws_go_word cur w rest :
  Forall (fun c => is_space c = false) (list_ascii_of_string w) ->
  split_ws_go cur (w ++ rest) = split_ws_go (cur ++ w) rest.
Proof.
  revert cur. induction w as [|c w IH]; intros cur Hw.
  - rewrite string_app_nil_r. reflexivity.
  - inversion Hw as [|? ? Hc Hw']; subst.
    change (String c w ++ rest)%string with (String c (w ++ rest)).
    cbn [split_ws_go]. rewrite Hc. rewrite IH by exact Hw'.
    rewrite string_app_assoc. reflexivity.
Qed.

Lemma split_ws_two w1 w2 :
  w1 <> "" -> w2 <> "" ->
  Forall (fun c => is_space c = false) (list_ascii_of_string w1) ->
  Forall (fun c => is_space c = false) (list_ascii_of_string w2) ->
  split_ws (w1 ++ " " ++ w2) = [w1; w2].
Proof.
  intros H1 H2 F1 F2. unfold split_ws.
  rewrite split_ws_go_word by exact F1.
  change ("" ++ w1)%string with w1. change (" " ++ w2)%string with (String " " w2).
  cbn [split_ws_go]. change (is_space " ") with true. cbv iota.
  apply String.eqb_neq in H1. rewrite H1.
  rewrite <- (string_app_nil_r w2) at 1.
  rewrite split_ws_go_word by exact F2.
  change ("" ++ w2)%string with w2. cbn [split_ws_go].
  apply String.eqb_neq in H2. rewrite H2. reflexivity.
Qed.

Lemma space_lower c : is_space c = true -> lower_char c = c.
Proof. destruct c as [[] [] [] [] [] [] [] []]; vm_compute; congruence. Qed.

Lemma lower_basic_nonspace scheme :
  lower scheme = "basic" -> Forall (fun c => is_space c = false) (list_ascii_of_string scheme).
Proof.
  intros E. assert (Hb : Forall (fun c => is_space c = false) (list_ascii_of_string (lower scheme)))
    by (rewrite E; repeat constructor).
  clear E. induction scheme as [|c s IH]; simpl in *; [constructor|].
  inversion Hb as [|? ? Hc Hs]; subst. constructor; [|auto].
  destruct (is_space c) eqn:Es; [|reflexivity]. rewrite (space_lower c Es) in Hc. congruence.
Qed.

Lemma b64_char_nonspace v : is_space (b64_char v) = false.
Proof.
  unfold b64_char. generalize (Z.to_nat v) as n. intros n.
  do 64 (destruct n as [|n]; [reflexivity|]). reflexivity.
Qed.

Lemma b2a_emit_chars f lc lb acc :
  Forall (fun c => is_space c = false) acc ->
  Forall (fun c => is_space c = false) (snd (b2a_emit f lc lb acc)).
Proof.
  revert lb acc. induction f as [|f IH]; intros lb acc Ha; simpl; [exact Ha|].
  destruct (6 <=? lb); [|exact Ha]. apply IH. constructor; [apply b64_char_nonspace|exact Ha].
Qed.

Lemma b2a_loop_chars s lc lb acc :
  Forall (fun c => is_space c = false) acc ->
  exists l, b2a_loop s lc lb acc = l ++ ["010"%char] /\ Forall (fun c => is_space c = false) l.
Proof.
  revert lc lb acc. induction s as [|c s IH]; intros lc lb acc Ha; simpl.
  - assert (Hr : Forall (fun c => is_space c = false) (rev acc)) by (apply Forall_rev; exact Ha).
    destruct (lb =? 2); [|destruct (lb =? 4)].
    + exists (rev acc ++ [b64_char (Z.shiftl (Z.land lc 3) 4); "="%char; "="%char]).
      simpl. rewrite <- !app_assoc. split; [reflexivity|].
      apply Forall_app; split; [exact Hr|]. repeat constructor. apply b64_char_nonspace.
    + exists (rev acc ++ [b64_char (Z.shiftl (Z.land lc 15) 2); "="%char]).
      simpl. rewrite <- !app_assoc. split; [reflexivity|].
      apply Forall_app; split; [exact Hr|]. repeat constructor. apply b64_char_nonspace.
    + exists (rev acc). split; [reflexivity|exact Hr].
  - pose proof (b2a_emit_chars (Z.to_nat (lb + 8))
      (Z.land (Z.lor (Z.shiftl lc 8) (Z.of_N (N_of_ascii c))) 4294967295) (lb + 8) acc Ha) as He.
    destruct (b2a_emit _ _ _ acc) as [lb' acc']. apply IH. exact He.
Qed.

Lemma b64encode_word s : s <> "" ->
  b64encode s <> "" /\ Forall (fun c => is_space c = false) (list_ascii_of_string (b64encode s)).
Proof.
  intros Hs. unfold b64encode.
  destruct (b2a_loop_chars (list_ascii_of_string s) 0 0 [] ltac:(constructor)) as (l & El & Fl).
  rewrite El, removelast_last, list_ascii_of_string_of_list_ascii. split; [|exact Fl].
  destruct s as [|a s]; [congruence|].
  assert (Hc : exists v t, b2a_loop (list_ascii_of_string (String a s)) 0 0 [] = b64_char v :: t).
  { eexists _, _. cbn [list_ascii_of_string b2a_loop b2a_emit]. simpl.
    rewrite b2a_loop_acc. reflexivity. }
  destruct Hc as (v & t & Ec). rewrite Ec in El.
  destruct l as [|x l]; [|discriminate]. injection El as Ev _.
  pose proof (b64_char_nonspace v) as Hn. rewrite Ev in Hn. discriminate.
Qed.

Lemma user_part_prefix k p :
  ~ In ":"%char (list_ascii_of_string k) -> (p = "" \/ exists p', p = (":" ++ p')%string) ->
  user_part (k ++ p) = k.
Proof.
  intros Hk Hp. induction k as [|c k IH]; simpl.
  - destruct Hp as [->|[p' ->]]; reflexivity.
  - simpl in Hk. destruct (Ascii.eqb_spec c ":"); [exfalso; apply Hk; left; congruence|].
    rewrite IH by tauto. reflexivity.
Qed.

Lemma user_part_no_colon s : ~ In ":"%char (list_ascii_of_string (user_part s)).
Proof.
  induction s as [|c s IH]; simpl; [tauto|].
  destruct (Ascii.eqb_spec c ":"); simpl; [tauto|]. intros [E|E]; [congruence|tauto].
Qed.

(** X3. With the key [k] configured, a request whose header is a Basic
    scheme (any case) followed by [base64.b64encode(k)] or
    [base64.b64encode(k + ":" + password)] is served: the view is called,
    its result converted and rendered.  [k] must be non-empty and
    contain no [:]. *)
Theorem gate_accepts_encoded k p scheme convert view_func req h :
  lower scheme = "basic" -> k <> "" -> ~ In ":"%char (list_ascii_of_string k) ->
  (p = "" \/ exists p', p = (":" ++ p')%string) ->
  meta_get (META req) "HTTP_AUTHORIZATION" "" = (scheme ++ " " ++ b64encode (k ++ p))%string ->
  wrapped_view (Some k) convert view_func req h = serve convert view_func req h.
Proof.
  intros Hl Hk Hc Hp Hm.
  assert (Hkp : (k ++ p)%string <> "") by (destruct k; [congruence|discriminate]).
  destruct (b64encode_word _ Hkp) as [Hne Hw].
  assert (Hs : scheme <> "") by (intros ->; discriminate).
  unfold wrapped_view, is_api_key_correct, bind.
  rewrite Hm, split_ws_two by (auto using lower_basic_nonspace).
  rewrite Hl. simpl String.eqb. rewrite b64_decode_encode, user_part_prefix by assumption.
  unfold ret. rewrite (String.eqb_refl k). reflexivity.
Qed.

(** X4. A configured key that contains [:] never lets a request through:
    the answer is the 403 response or the [TypeError] of a bad base64
    token. *)
Theorem gate_colon_key k convert view_func req h :
  In ":"%char (list_ascii_of_string k) ->
  wrapped_view (Some k) convert view_func req h = (inr (HttpResponseForbidden forbidden_body), h) \/
  wrapped_view (Some k) convert view_func req h = (inl TypeError, h).
Proof.
  intros Hk. unfold wrapped_view, is_api_key_correct, bind.
  destruct (split_ws _) as [|scheme [|tok [|x rest]]]; try (left; reflexivity).
  destruct (String.eqb (lower scheme) "basic"); [|left; reflexivity].
  destruct (b64decode tok) as [decoded|]; [|right; reflexivity].
  left. unfold ret. destruct (String.eqb_spec (user_part decoded) k) as [E|E]; [|reflexivity].
  exfalso. apply (user_part_no_colon decoded). rewrite E. exact Hk.
Qed.

Lemma heap_ext_refl h : heap_ext h h.
Proof. intros q o H. exact H. Qed.

Lemma heap_ext_trans h1 h2 h3 : heap_ext h1 h2 -> heap_ext h2 h3 -> heap_ext h1 h3.
Proof. intros H12 H23 q o H. auto. Qed.

Lemma heap_ext_alloc (h : heap) o : heap_ext h (<[fresh (dom h) := o]> h).
Proof. intros q o' H. apply lookup_alloc_ne. exact H. Qed.

Lemma ext_fresh_none h h1 q : heap_ext h h1 -> h1 !! q = None -> h !! q = None.
Proof. intros He Hq. destruct (h !! q) eqn:E; [|reflexivity]. apply He in E. congruence. Qed.

Lemma run_mapM_objs {A} (f : A -> M val) (g : A -> obj) (l : list A) (h : heap) :
  (forall x h1, In x l -> heap_ext h h1 -> f x h1 = alloc (g x) h1) ->
  exists ds h', mapM f l h = (inr ds, h') /\ heap_ext h h' /\
    Forall2 (fun d x => exists q, d = VRef q /\ h !! q = None /\ h' !! q = Some (g x)) ds l.
Proof.
  revert h. induction l as [|x l IH]; intros h Hf.
  - exists [], h. split; [reflexivity|]. split; [apply heap_ext_refl|constructor].
  - set (h0 := <[fresh (dom h) := g x]> h).
    assert (E0 : f x h = (inr (VRef (fresh (dom h))), h0))
      by (rewrite (Hf x h (or_introl eq_refl) (heap_ext_refl h)); reflexivity).
    destruct (IH h0) as (ds & h' & E & Hext & Hds).
    { intros y h1 Hy Hh1. apply Hf; [right; exact Hy|].
      exact (heap_ext_trans _ _ _ (heap_ext_alloc h (g x)) Hh1). }
    exists (VRef (fresh (dom h)) :: ds), h'. split; [|split].
    + simpl. rewrite (run_bind _ _ _ _ _ E0), (run_bind _ _ _ _ _ E). reflexivity.
    + exact (heap_ext_trans _ _ _ (heap_ext_alloc h (g x)) Hext).
    + constructor.
      * exists (fresh (dom h)). split; [reflexivity|]. split; [apply fresh_free|].
        apply Hext. apply lookup_insert_eq.
      * eapply Forall2_impl; [exact Hds|]. intros d y (q & -> & Hq & Hq').
        exists q. split; [reflexivity|]. split; [|exact Hq'].
        exact (ext_fresh_none _ _ _ (heap_ext_alloc h (g x)) Hq).
Qed.

Lemma run_mapM_objs_err {A} (f : A -> M val) (g : A -> obj) pre e post (h : heap) err :
  (forall x h1, In x pre -> heap_ext h h1 -> f x h1 = alloc (g x) h1) ->
  (forall h1, heap_ext h h1 -> fst (f e h1) = inl err) ->
  fst (mapM f (pre ++ e :: post) h) = inl err.
Proof.
  revert h. induction pre as [|x pre IH]; intros h Hf He; simpl.
  - unfold bind. specialize (He h (heap_ext_refl h)).
    destruct (f e h) as [[err'|a] h1]; simpl in *; congruence.
  - rewrite (run_bind _ _ _ _ _ (Hf x h (or_introl eq_refl) (heap_ext_refl h))).
    unfold bind. pose proof (IH (<[fresh (dom h) := g x]> h)) as IH'.
    assert (Hm : fst (mapM f (pre ++ e :: post) (<[fresh (dom h) := g x]> h)) = inl err).
    { apply IH'.
      - intros y h1 Hy Hh1. apply Hf; [right; exact Hy|].
        exact (heap_ext_trans _ _ _ (heap_ext_alloc h (g x)) Hh1).
      - intros h1 Hh1. apply He. exact (heap_ext_trans _ _ _ (heap_ext_alloc h (g x)) Hh1). }
    destruct (mapM f (pre ++ e :: post) _) as [[err'|a] h1]; simpl in *; congruence.
Qed.

Lemma run_wrap_seq_view h h1 e xs :
  seq_view h e = Some xs -> heap_ext h h1 -> wrap_seq e h1 = (inr xs, h1).
Proof.
  intros Hv He. destruct e; simpl in Hv; try (injection Hv as <-; reflexivity).
  destruct (h !! p) as [[l|kv]|] eqn:Ep; [| |discriminate]; apply He in Ep;
    injection Hv as <-; unfold wrap_seq, seq_items, bind, load; rewrite Ep; reflexivity.
Qed.

Lemma Forall2_in_l {A B} (R : A -> B -> Prop) l l' x :
  Forall2 R l l' -> In x l -> exists y, R x y.
Proof.
  intros H. induction H as [|a b l l' Hab H IH]; intros Hx; [destruct Hx|].
  destruct Hx as [->|Hx]; eauto.
Qed.

Lemma Forall2_compose {A B C} (R1 : A -> B -> Prop) (R2 : B -> C -> Prop) (R3 : A -> C -> Prop) l1 l2 l3 :
  Forall2 R1 l1 l2 -> Forall2 R2 l2 l3 -> (forall x y z, R1 x y -> R2 y z -> R3 x z) ->
  Forall2 R3 l1 l3.
Proof.
  intros H1. revert l3. induction H1 as [|x y l1 l2 Hxy H1 IH]; intros l3 H2 Hc;
    inversion H2; subst; constructor; eauto.
Qed.

(** The shape shared by the RAG, text and pie-chart normalisers. *)

Lemma run_items_convert (getelems : val -> M (list val)) (item : val -> M val)
      (kv : val -> list val -> list (string * val)) result es xss (h : heap) :
  getelems result h = (inr es, h) ->
  Forall2 (fun e xs => seq_view h e = Some xs /\ xs <> []) es xss ->
  (forall e h1 x rest, seq_view h e = Some (x :: rest) -> heap_ext h h1 ->
     item e h1 = alloc (ODict (kv x rest)) h1) ->
  exists r p ds h',
    (elems <- getelems result ;; items <- mapM item elems ;;
     l <- alloc (OList items) ;; alloc (ODict [("item", l)])) h = (inr (VRef r), h') /\
    h' !! r = Some (ODict [("item", VRef p)]) /\ h' !! p = Some (OList ds) /\
    Forall2 (fun d xs => exists q x rest, xs = x :: rest /\ d = VRef q /\ h !! q = None /\
                           h' !! q = Some (ODict (kv x rest))) ds xss.
Proof.
  intros Hg Hes Hitem.
  set (g := fun e => match seq_view h e with Some (x :: rest) => ODict (kv x rest) | _ => ODict [] end).
  destruct (run_mapM_objs item g es h) as (ds & h1 & E & Hext & Hds).
  { intros e h1 He Hh1. destruct (Forall2_in_l _ _ _ _ Hes He) as (xs & Hv & Hne).
    destruct xs as [|x rest]; [congruence|]. unfold g. rewrite Hv. apply Hitem; assumption. }
  set (p := fresh (dom h1)). set (h2 := <[p := OList ds]> h1).
  exists (fresh (dom h2)), p, ds, (<[fresh (dom h2) := ODict [("item", VRef p)]]> h2).
  split; [|split; [|split]].
  - rewrite (run_bind _ _ _ _ _ Hg), (run_bind _ _ _ _ _ E). reflexivity.
  - apply lookup_insert_eq.
  - apply lookup_alloc_ne. apply lookup_insert_eq.
  - apply (Forall2_compose _ _ _ ds es xss Hds Hes).
    intros d e xs (q & -> & Hq & Hq') (Hv & Hne).
    destruct xs as [|x rest]; [congruence|]. exists q, x, rest.
    split; [reflexivity|]. split; [reflexivity|]. split; [exact Hq|].
    apply lookup_alloc_ne, lookup_alloc_ne. unfold g in Hq'. rewrite Hv in Hq'. exact Hq'.
Qed.

Lemma run_items_convert_err (getelems : val -> M (list val)) (item : val -> M val)
      (kv : val -> list val -> list (string * val)) result pre e post xss (h : heap) err :
  getelems result h = (inr (pre ++ e :: post), h) ->
  Forall2 (fun e xs => seq_view h e = Some xs /\ xs <> []) pre xss ->
  (forall e h1 x rest, seq_view h e = Some (x :: rest) -> heap_ext h h1 ->
     item e h1 = alloc (ODict (kv x rest)) h1) ->
  (forall h1, heap_ext h h1 -> fst (item e h1) = inl err) ->
  fst ((elems <- getelems result ;; items <- mapM item elems ;;
        l <- alloc (OList items) ;; alloc (ODict [("item", l)])) h) = inl err.
Proof.
  intros Hg Hpre Hitem He.
  set (g := fun e => match seq_view h e with Some (x :: rest) => ODict (kv x rest) | _ => ODict [] end).
  pose proof (run_mapM_objs_err item g pre e post h err) as Hm.
  rewrite (run_bind _ _ _ _ _ Hg). unfold bind at 1.
  assert (Hf : fst (mapM item (pre ++ e :: post) h) = inl err).
  { apply Hm; [|exact He]. intros x h1 Hx Hh1.
    destruct (Forall2_in_l _ _ _ _ Hpre Hx) as (xs & Hv & Hne).
    destruct xs as [|x0 rest]; [congruence|]. unfold g. rewrite Hv. apply Hitem; assumption. }
  destruct (mapM item (pre ++ e :: post) h) as [[err'|a] h1]; simpl in *; congruence.
Qed.

Lemma run_item_step (h h1 : heap) e x rest (mk : val -> list val -> list (string * val)) :
  seq_view h e = Some (x :: rest) -> heap_ext h h1 ->
  (es <- wrap_seq e ;; v0 <- nth_index es 0 ;; alloc (ODict (mk v0 es))) h1
  = alloc (ODict (mk x (x :: rest))) h1.
Proof.
  intros Hv He. rewrite (run_bind _ _ _ _ _ (run_wrap_seq_view _ _ _ _ Hv He)). reflexivity.
Qed.

Lemma run_item_empty (h h1 : heap) e (k : list val -> val -> M val) :
  seq_view h e = Some [] -> heap_ext h h1 ->
  fst ((es <- wrap_seq e ;; v0 <- nth_index es 0 ;; k es v0) h1) = inl IndexError.
Proof.
  intros Hv He. rewrite (run_bind _ _ _ _ _ (run_wrap_seq_view _ _ _ _ Hv He)). reflexivity.
Qed.

Lemma rag_item_step h h1 e x rest :
  seq_view h e = Some (x :: rest) -> heap_ext h h1 ->
  rag_item e h1 = alloc (ODict (rag_kv x rest)) h1.
Proof.
  intros Hv He. unfold rag_item.
  rewrite (run_item_step h h1 e x rest
    (fun v0 es => ("value", if is_none v0 then VStr "" else v0)
                  :: match es with _ :: t :: _ => [("text", t)] | _ => [] end) Hv He).
  destruct rest; reflexivity.
Qed.

Lemma text_item_step h h1 e x rest :
  seq_view h e = Some (x :: rest) -> heap_ext h h1 ->
  text_item e h1 = alloc (ODict (text_kv x rest)) h1.
Proof.
  intros Hv He. unfold text_item.
  rewrite (run_item_step h h1 e x rest
    (fun t es => [("text", t); ("type", match es with
            | _ :: ty :: _ => if is_none ty then VInt TEXT_NONE else ty
            | _ => VInt TEXT_NONE end)]) Hv He).
  destruct rest; reflexivity.
Qed.

Lemma pie_item_step h h1 e x rest :
  seq_view h e = Some (x :: rest) -> heap_ext h h1 ->
  pie_item e h1 = alloc (ODict (pie_kv x rest)) h1.
Proof.
  intros Hv He. unfold pie_item.
  rewrite (run_item_step h h1 e x rest
    (fun v es => ("value", v) :: match es with
              | _ :: lbl :: col :: _ => [("label", lbl); ("colour", col)]
              | _ :: lbl :: _ => [("label", lbl)]
              | _ => [] end) Hv He).
  destruct rest as [|a [|b r]]; reflexivity.
Qed.

Lemma items_empty_raise h h1 e :
  seq_view h e = Some [] -> heap_ext h h1 ->
  fst (rag_item e h1) = inl IndexError /\ fst (text_item e h1) = inl IndexError /\
  fst (pie_item e h1) = inl IndexError.
Proof.
  intros Hv He. unfold rag_item, text_item, pie_item.
  split; [|split]; exact (run_item_empty h h1 e _ Hv He).
Qed.

(** Shape of one normaliser's result: a new [{"item": [...]}] mapping
    whose list holds one new mapping per element. *)

Lemma rag_items_run result es xss (h : heap) :
  py_iter result h = (inr es, h) ->
  Forall2 (fun e xs => seq_view h e = Some xs /\ xs <> []) es xss ->
  exists r h', rag_convert result h = (inr r, h') /\ items_result h h' rag_kv xss r.
Proof.
  intros Hg Hes.
  destruct (run_items_convert py_iter rag_item rag_kv result es xss h Hg Hes)
    as (r & p & ds & h' & E & Hr & Hp & Hds).
  { intros e h1 x rest Hv He. exact (rag_item_step h h1 e x rest Hv He). }
  exists (VRef r), h'. split; [exact E|]. exists r, p, ds. auto.
Qed.


Lemma text_items_run result es xss (h : heap) :
  wrap_seq result h = (inr es, h) ->
  Forall2 (fun e xs => seq_view h e = Some xs /\ xs <> []) es xss ->
  exists r h', text_convert result h = (inr r, h') /\ items_result h h' text_kv xss r.
Proof.
  intros Hg Hes.
  destruct (run_items_convert wrap_seq text_item text_kv result es xss h Hg Hes)
    as (r & p & ds & h' & E & Hr & Hp & Hds).
  { intros e h1 x rest Hv He. exact (text_item_step h h1 e x rest Hv He). }
  exists (VRef r), h'. split; [exact E|]. exists r, p, ds. auto.
Qed.

(** X7. The text normaliser makes one new item per element [(message,
    [type])]: [text] is the first entry, [type] the second entry unless
    it is absent or [None], then [TEXT_NONE]. *)
Theorem text_convert_items result es xss (h : heap) :
  wrap_seq result h = (inr es, h) ->
  Forall2 (fun e xs => seq_view h e = Some xs /\ xs <> []) es xss ->
  exists r h', text_convert result h = (inr r, h') /\ items_result h h' text_kv xss r.
Proof. exact (text_items_run result es xss h). Qed.

Lemma pie_items_run result es xss (h : heap) :
  py_iter result h = (inr es, h) ->
  Forall2 (fun e xs => seq_view h e = Some xs /\ xs <> []) es xss ->
  exists r h', pie_convert result h = (inr r, h') /\ items_result h h' pie_kv xss r.
Proof.
  intros Hg Hes.
  destruct (run_items_convert py_iter pie_item pie_kv result es xss h Hg Hes)
    as (r & p & ds & h' & E & Hr & Hp & Hds).
  { intros e h1 x rest Hv He. exact (pie_item_step h h1 e x rest Hv He). }
  exists (VRef r), h'. split; [exact E|]. exists r, p, ds. auto.
Qed.

(** X8. The pie-chart normaliser makes one new item per element [(value,
    [label, [colour]])], with [label] and [colour] only when the element
    has them. *)
Theorem pie_convert_items result es xss (h : heap) :
  py_iter result h = (inr es, h) ->
  Forall2 (fun e xs => seq_view h e = Some xs /\ xs <> []) es xss ->
  exists r h', pie_convert result h = (inr r, h') /\ items_result h h' pie_kv xss r.
Proof. exact (pie_items_run result es xss h). Qed.

(** X9. An empty tuple or list among the elements makes the RAG, pie-chart
    and text normalisers raise [IndexError]. *)
Theorem items_empty_elem_raises result pre e post xss (h : heap) :
  Forall2 (fun e xs => seq_view h e = Some xs /\ xs <> []) pre xss ->
  seq_view h e = Some [] ->
  (py_iter result h = (inr (pre ++ e :: post), h) ->
   fst (rag_convert result h) = inl IndexError /\ fst (pie_convert result h) = inl IndexError) /\
  (wrap_seq result h = (inr (pre ++ e :: post), h) ->
   fst (text_convert result h) = inl IndexError).
Proof.
  intros Hpre He. split; [intros Hg; split|intros Hg].
  - apply (run_items_convert_err py_iter rag_item rag_kv result pre e post xss h IndexError Hg Hpre).
    + intros e' h1 x rest Hv Hh. exact (rag_item_step h h1 e' x rest Hv Hh).
    + intros h1 Hh. exact (proj1 (items_empty_raise h h1 e He Hh)).
  - apply (run_items_convert_err py_iter pie_item pie_kv result pre e post xss h IndexError Hg Hpre).
    + intros e' h1 x rest Hv Hh. exact (pie_item_step h h1 e' x rest Hv Hh).
    + intros h1 Hh. exact (proj2 (proj2 (items_empty_raise h h1 e He Hh))).
  - apply (run_items_convert_err wrap_seq text_item text_kv result pre e post xss h IndexError Hg Hpre).
    + intros e' h1 x rest Hv Hh. exact (text_item_step h h1 e' x rest Hv Hh).
    + intros h1 Hh. exact (proj1 (proj2 (items_empty_raise h h1 e He Hh))).
Qed.

Lemma chars_views (h : heap) s :
  Forall2 (fun e xs => seq_view h e = Some xs /\ xs <> []) (chars s) (map (fun x => [x]) (chars s)).
Proof.
  unfold chars. induction (list_ascii_of_string s) as [|c l IH]; constructor; auto.
Qed.

Lemma items_result_impl h h' kv kv' xss r :
  Forall (fun xs => forall x rest, xs = x :: rest -> kv x rest = kv' x rest) xss ->
  items_result h h' kv xss r -> items_result h h' kv' xss r.
Proof.
  intros Hk (rr & p & ds & -> & Hr & Hp & Hds). exists rr, p, ds.
  split; [reflexivity|]. split; [exact Hr|]. split; [exact Hp|].
  clear Hr Hp. induction Hds as [|d xs ds xss' Hd Hds IH]; constructor.
  - inversion Hk; subst. destruct Hd as (q & x & rest & -> & -> & Hq & Hq').
    exists q, x, rest. repeat split; auto. rewrite <- (H1 x rest eq_refl). exact Hq'.
  - inversion Hk; subst. apply IH. assumption.
Qed.

(** X10. A string result is iterated by the RAG and pie-chart normalisers:
    one item per character.  The text normaliser wraps it whole: one
    item [{text: s, type: TEXT_NONE}]. *)
Theorem string_result_items s (h : heap) :
  (exists r h', rag_convert (VStr s) h = (inr r, h') /\
     items_result h h' (fun x _ => [("value", x)]) (map (fun x => [x]) (chars s)) r) /\
  (exists r h', pie_convert (VStr s) h = (inr r, h') /\
     items_result h h' (fun x _ => [("value", x)]) (map (fun x => [x]) (chars s)) r) /\
  (exists r h', text_convert (VStr s) h = (inr r, h') /\
     items_result h h' (fun x _ => [("text", x); ("type", VInt TEXT_NONE)]) [[VStr s]] r).
Proof.
  assert (Hk : forall kv : val -> list val -> list (string * val),
            (forall c, kv (VStr (String c EmptyString)) [] = [("value", VStr (String c EmptyString))]) ->
            Forall (fun xs => forall x rest, xs = x :: rest -> kv x rest = [("value", x)])
                   (map (fun x => [x]) (chars s))).
  { intros kv Hc. unfold chars. induction (list_ascii_of_string s) as [|c l IH]; constructor; auto.
    intros x rest E. injection E as <- <-. apply Hc. }
  split; [|split].
  - destruct (rag_items_run (VStr s) (chars s) _ h eq_refl (chars_views h s)) as (r & h' & E & Hr).
    exists r, h'. split; [exact E|]. eapply items_result_impl; [|exact Hr]. apply Hk. reflexivity.
  - destruct (pie_items_run (VStr s) (chars s) _ h eq_refl (chars_views h s)) as (r & h' & E & Hr).
    exists r, h'. split; [exact E|]. eapply items_result_impl; [|exact Hr]. apply Hk. reflexivity.
  - destruct (text_items_run (VStr s) [VStr s] [[VStr s]] h eq_refl) as (r & h' & E & Hr).
    { constructor; [|constructor]. split; [reflexivity|discriminate]. }
    exists r, h'. split; [exact E|]. eapply items_result_impl; [|exact Hr].
    constructor; [|constructor]. intros x rest E'. injection E' as <- <-. reflexivity.
Qed.

Lemma axis_result_mono h h2 h3 a v :
  heap_ext h2 h3 -> axis_result h h2 a v -> axis_result h h3 a v.
Proof.
  intros He [H|(Hk & q & -> & Hq & Hq')]; [left; exact H|right].
  split; [exact Hk|]. exists q. auto.
Qed.

Lemma run_line_axis (h h1 : heap) a :
  heap_ext h h1 -> seq_kind h a <> None ->
  exists v h2, line_axis a h1 = (inr v, h2) /\ heap_ext h1 h2 /\ axis_result h h2 a v.
Proof.
  intros He Hk.
  assert (Halloc : seq_kind h a = Some false ->
            seq_items (if is_none a then VStr "" else a) h1 = (inr None, h1) ->
            exists v h2, line_axis a h1 = (inr v, h2) /\ heap_ext h1 h2 /\ axis_result h h2 a v).
  { intros Hf Hs. exists (VRef (fresh (dom h1))),
      (<[fresh (dom h1) := OList [if is_none a then VStr "" else a]]> h1).
    split; [unfold line_axis; rewrite (run_bind _ _ _ _ _ Hs); reflexivity|].
    split; [apply heap_ext_alloc|]. right. split; [exact Hf|].
    exists (fresh (dom h1)). split; [reflexivity|]. split; [|apply lookup_insert_eq].
    exact (ext_fresh_none _ _ _ He (fresh_free h1)). }
  destruct a as [| | | | |l|p]; try (apply Halloc; reflexivity).
  - exists (VTuple l), h1. split; [reflexivity|]. split; [apply heap_ext_refl|].
    left. split; reflexivity.
  - simpl in Hk. destruct (h !! p) as [[l|kv]|] eqn:Ep; [| |congruence].
    + exists (VRef p), h1. split.
      * unfold line_axis, seq_items, bind, load. simpl. rewrite (He _ _ Ep). reflexivity.
      * split; [apply heap_ext_refl|]. left. simpl. rewrite Ep. split; reflexivity.
    + apply Halloc; [simpl; rewrite Ep; reflexivity|].
      unfold seq_items, bind, load. simpl. rewrite (He _ _ Ep). reflexivity.
Qed.

Lemma as_seq_ops (h h1 : heap) v l :
  as_seq h v = Some l -> heap_ext h h1 ->
  (forall i x, nth_error l i = Some x -> py_index v i h1 = (inr x, h1)) /\
  py_len v h1 = (inr (Z.of_nat (length l)), h1).
Proof.
  intros Hv He. destruct v; try discriminate; simpl in Hv.
  - injection Hv as <-. split; [|reflexivity].
    intros i x Hx. unfold py_index, nth_index. rewrite Hx. reflexivity.
  - destruct (h !! p) as [[l'|kv]|] eqn:Ep; try discriminate. injection Hv as <-.
    apply He in Ep. unfold py_index, py_len, bind, load. rewrite Ep. split; [|reflexivity].
    intros i x Hx. unfold nth_index. rewrite Hx. reflexivity.
Qed.

Lemma run_axis_block (h h1 : heap) result l (k : nat) (z : Z) (key : string) :
  as_seq h result = Some l -> heap_ext h h1 -> z = Z.of_nat k ->
  (k < length l)%nat -> seq_kind h (nth k l VNone) <> None ->
  exists v h2,
    (if z <? Z.of_nat (length l)
     then x <- py_index result k ;; x' <- line_axis x ;; ret [(key, x')]
     else ret []) h1 = (inr [(key, v)], h2) /\
    heap_ext h1 h2 /\ axis_result h h2 (nth k l VNone) v.
Proof.
  intros Hs He -> Hk Hkind.
  rewrite (proj2 (Z.ltb_lt _ _)) by lia.
  destruct (run_line_axis h h1 (nth k l VNone) He Hkind) as (v & h2 & E & He2 & Hr).
  exists v, h2. split; [|auto].
  rewrite (run_bind _ _ _ _ _ (proj1 (as_seq_ops h h1 result l Hs He) k _
                                  (nth_error_nth' l VNone Hk))).
  rewrite (run_bind _ _ _ _ _ E). reflexivity.
Qed.

Lemma run_ret {A} (a : A) (h : heap) : ret a h = (inr a, h).
Proof. reflexivity. Qed.

Ltac skip_block z :=
  rewrite (proj2 (Z.ltb_ge z _)) by (simpl; lia);
  rewrite (run_bind _ _ _ _ _ (run_ret [] _)).


Lemma run_meter_bound (h h1 : heap) b x rest :
  seq_view h b = Some (x :: rest) -> heap_ext h h1 ->
  meter_bound b h1 = (inr (meter_kv x rest), h1).
Proof.
  intros Hv He. unfold meter_bound.
  rewrite (run_bind _ _ _ _ _ (run_wrap_seq_view _ _ _ _ Hv He)).
  destruct rest; reflexivity.
Qed.


(** X14. A Geck-O-Meter result that does not have three parts raises
    [ValueError]; an empty [max] bound raises [IndexError]. *)
Theorem meter_convert_errors result parts (h : heap) :
  py_iter result h = (inr parts, h) ->
  (length parts <> 3%nat -> meter_convert result h = (inl ValueError, h)) /\
  (forall value mn mx, parts = [value; mn; mx] -> seq_view h mx = Some [] ->
     meter_convert result h = (inl IndexError, h)).
Proof.
  intros Hp. unfold meter_convert. rewrite (run_bind _ _ _ _ _ Hp). split.
  - intros Hl. destruct parts as [|a [|b [|c [|d l]]]]; try reflexivity. simpl in Hl. lia.
  - intros value mn mx -> Hv.
    assert (E : meter_bound mx h = (inl IndexError, h)).
    { unfold meter_bound. rewrite (run_bind _ _ _ _ _ (run_wrap_seq_view _ _ _ _ Hv (heap_ext_refl h))).
      reflexivity. }
    rewrite (run_bind_exn _ _ _ _ _ E). reflexivity.
Qed.

(** X15. A funnel result without [items] gives an empty item list (a new
    list) and the default type and percentage, whether it asks for
    sorting or not; no existing object is modified. *)
Theorem funnel_without_items r kr b (h : heap) :
  h !! r = Some (ODict kr) -> assoc "items" kr = None ->
  (forall h0, truthy (get_default kr "sort" VNone) h0 = (inr b, h0)) ->
  exists o l h', funnel_convert (VRef r) h = (inr (VRef o), h') /\
    h' !! o = Some (ODict [("item", VRef l);
                           ("type", get_default kr "type" (VStr "standard"));
                           ("percentage", get_default kr "percentage" (VStr "show"))]) /\
    h' !! l = Some (OList []) /\ h !! l = None /\ heap_ext h h'.
Proof.
  intros Hr Hi Hs. unfold funnel_convert.
  rewrite (run_bind _ _ _ _ _ (run_alloc _ _)).
  set (d := fresh (dom h)). set (h1 := <[d := OList []]> h).
  assert (Hr1 : h1 !! r = Some (ODict kr)) by (apply lookup_alloc_ne; exact Hr).
  assert (Hd1 : h1 !! d = Some (OList [])) by apply lookup_insert_eq.
  rewrite (run_bind _ _ _ _ _ (run_dict_get _ _ _ _ _ Hr1)), Hi.
  rewrite (run_bind _ _ _ _ _ (run_dict_get_default _ _ _ _ _ Hr1)).
  rewrite (run_bind _ _ _ _ _ (Hs h1)).
  assert (Esort : (if b then list_sort_reverse (VRef d) else ret tt) h1 = (inr tt, h1)).
  { destruct b; [|reflexivity]. unfold list_sort_reverse.
    rewrite (run_bind _ _ _ _ _ (run_load _ _ _ Hd1)). unfold store, of_option, ret, bind. simpl.
    f_equal. apply insert_id. exact Hd1. }
  rewrite (run_bind _ _ _ _ _ Esort).
  assert (Eit : py_iter (VRef d) h1 = (inr [], h1)).
  { unfold py_iter. rewrite (run_bind _ _ _ _ _ (run_load _ _ _ Hd1)). reflexivity. }
  rewrite (run_bind _ _ _ _ _ Eit).
  rewrite (run_bind _ _ _ _ _ (eq_refl : mapM funnel_entry [] h1 = (inr [], h1))).
  rewrite (run_bind _ _ _ _ _ (run_alloc _ _)).
  set (l := fresh (dom h1)). set (h2 := <[l := OList []]> h1).
  assert (Hr2 : h2 !! r = Some (ODict kr)) by (apply lookup_alloc_ne; exact Hr1).
  rewrite (run_bind _ _ _ _ _ (run_dict_get_default _ _ _ _ _ Hr2)).
  rewrite (run_bind _ _ _ _ _ (run_dict_get_default _ _ _ _ _ Hr2)).
  exists (fresh (dom h2)), l,
    (<[fresh (dom h2) := ODict [("item", VRef l);
                           ("type", get_default kr "type" (VStr "standard"));
                           ("percentage", get_default kr "percentage" (VStr "show"))]]> h2).
  split; [reflexivity|]. split; [apply lookup_insert_eq|].
  split; [apply lookup_alloc_ne, lookup_insert_eq|].
  split; [exact (ext_fresh_none _ _ _ (heap_ext_alloc h _) (fresh_free h1))|].
  exact (heap_ext_trans _ _ _ (heap_ext_alloc h _)
           (heap_ext_trans _ _ _ (heap_ext_alloc h1 _) (heap_ext_alloc h2 _))).
Qed.

Lemma assoc_remove_ne k k' kv : k <> k' -> assoc k (assoc_remove k' kv) = assoc k kv.
Proof.
  intros Hne. induction kv as [|[k0 v] kv IH]; [reflexivity|]. simpl.
  destruct (String.eqb k' k0) eqn:E1.
  - apply String.eqb_eq in E1. subst k0. apply String.eqb_neq in Hne. rewrite Hne. reflexivity.
  - simpl. destruct (String.eqb k k0); [reflexivity|exact IH].
Qed.

Lemma bullet_prefix r kr i ki a ka (h : heap) :
  h !! r = Some (ODict kr) -> assoc "item" kr = Some (VRef i) ->
  h !! i = Some (ODict ki) -> assoc "axis" ki = Some (VRef a) ->
  h !! a = Some (ODict ka) ->
  (forall h0, truthy (get_default ka "point" VNone) h0 = (inr false, h0)) ->
  bullet_convert (VRef r) h =
  (min_pt <- dict_pop (VRef a) "min" None ;;
   max_pt <- dict_pop (VRef a) "max" None ;;
   pts <- dict_pop (VRef a) "points" (Some (VInt 1)) ;;
   precision <- dict_pop (VRef a) "precision" (Some (VInt 0)) ;;
   pts_l <- lift (axis_points min_pt max_pt pts precision) ;;
   l <- alloc (OList pts_l) ;;
   item2 <- getitem (VRef r) "item" ;;
   axis2 <- getitem item2 "axis" ;;
   setitem axis2 "point" l ;;;
   ret (VRef r)) h.
Proof.
  intros Hr Hi Hki Ha Hka Hfalse. unfold bullet_convert.
  rewrite (run_bind _ _ _ _ _ (run_getitem _ _ _ _ _ Hr Hi)).
  rewrite (run_bind _ _ _ _ _ (run_getitem _ _ _ _ _ Hki Ha)).
  rewrite (run_bind _ _ _ _ _ (run_dict_get_default _ _ _ _ _ Hka)).
  rewrite (run_bind _ _ _ _ _ (Hfalse h)). cbv beta iota.
  rewrite (run_bind _ _ _ _ _ (run_getitem _ _ _ _ _ Hr Hi)).
  rewrite (run_bind _ _ _ _ _ (run_getitem _ _ _ _ _ Hki Ha)).
  reflexivity.
Qed.

(** X16. A bullet-graph axis recipe without [min] raises [KeyError] and
    changes nothing; without [max] it raises [KeyError] after [min] has
    been removed from the axis mapping; with fewer than one point it
    raises [ValueError] after the four recipe keys have been removed. *)
Theorem bullet_recipe_errors r kr i ki a ka (h : heap) :
  h !! r = Some (ODict kr) -> assoc "item" kr = Some (VRef i) ->
  h !! i = Some (ODict ki) -> assoc "axis" ki = Some (VRef a) ->
  h !! a = Some (ODict ka) ->
  (forall h0, truthy (get_default ka "point" VNone) h0 = (inr false, h0)) ->
  (assoc "min" ka = None -> bullet_convert (VRef r) h = (inl KeyError, h)) /\
  (forall mn, assoc "min" ka = Some mn -> assoc "max" ka = None ->
     bullet_convert (VRef r) h = (inl KeyError, <[a := ODict (assoc_remove "min" ka)]> h)) /\
  (forall mn mx n, assoc "min" ka = Some mn -> assoc "max" ka = Some mx ->
     assoc "points" ka = Some (VInt n) -> n < 1 ->
     bullet_convert (VRef r) h = (inl ValueError, <[a := ODict (recipe_removed ka)]> h)).
Proof.
  intros Hr Hi Hki Ha Hka Hfalse.
  rewrite (bullet_prefix r kr i ki a ka h Hr Hi Hki Ha Hka Hfalse).
  split; [|split].
  - intros Hmin. unfold bind at 1, dict_pop at 1.
    rewrite (run_bind _ _ _ _ _ (run_load _ _ _ Hka)), Hmin. reflexivity.
  - intros mn Hmin Hmax.
    rewrite (run_bind _ _ _ _ _ (run_dict_pop_found _ _ _ _ _ _ Hka Hmin)).
    unfold bind at 1, dict_pop at 1.
    rewrite (run_bind _ _ _ _ _ (run_load _ _ _ (lookup_insert_eq _ _ _))).
    rewrite assoc_remove_ne by discriminate. rewrite Hmax. reflexivity.
  - intros mn mx n Hmin Hmax Hpts Hn.
    rewrite (run_bind _ _ _ _ _ (run_dict_pop_found _ _ _ _ _ _ Hka Hmin)).
    rewrite (run_bind _ _ _ _ _ (run_dict_pop_found _ _ _ _ _ _ (lookup_insert_eq _ _ _)
               (eq_trans (assoc_remove_ne "max" "min" ka ltac:(discriminate)) Hmax))).
    rewrite insert_insert_eq.
    rewrite (run_bind _ _ _ _ _ (run_dict_pop_found _ _ _ _ _ _ (lookup_insert_eq _ _ _)
               (eq_trans (assoc_remove_ne "points" "max" _ ltac:(discriminate))
                  (eq_trans (assoc_remove_ne "points" "min" ka ltac:(discriminate)) Hpts)))).
    rewrite insert_insert_eq.
    set (kp := assoc_remove "points" (assoc_remove "max" (assoc_remove "min" ka))).
    assert (Hlast : exists prec, dict_pop (VRef a) "precision" (Some (VInt 0))
                                   (<[a := ODict kp]> h)
                                 = (inr prec, <[a := ODict (recipe_removed ka)]> h)).
    { destruct (assoc "precision" kp) as [p|] eqn:Ep.
      - exists p. rewrite (run_dict_pop_found _ _ _ _ _ _ (lookup_insert_eq _ _ _) Ep).
        rewrite insert_insert_eq. reflexivity.
      - exists (VInt 0). rewrite (run_dict_pop_default _ _ _ _ _ (lookup_insert_eq _ _ _) Ep).
        unfold recipe_removed. fold kp. rewrite (assoc_remove_absent _ _ Ep). reflexivity. }
    destruct Hlast as (prec & Ep). rewrite (run_bind _ _ _ _ _ Ep).
    unfold bind at 1, lift. unfold axis_points. simpl as_num.
    assert (Hlt : num_lt (NInt n) (NInt 1) = true).
    { unfold num_lt, num_cmp. rewrite (proj2 (Z.compare_lt_iff n 1) Hn). reflexivity. }
    cbv beta iota. rewrite Hlt. reflexivity.
Qed.

Lemma axis_convert_kind prec x y : axis_convert prec x = inr y -> point_kind prec y.
Proof.
  unfold axis_convert, point_kind. destruct (is_zero_num prec).
  - unfold py_int. destruct (as_num x) as [[z|f]|]; [| |discriminate].
    + intros E. injection E as <-. eauto.
    + assert (Ht : forall o : option Z, match o with Some z => inr (VInt z) | None => inl OverflowError end = inr y ->
                     exists z, y = VInt z).
      { intros [z|] E; [injection E as <-; eauto|discriminate]. }
      destruct f; try (apply Ht); discriminate.
  - unfold py_format_round. intros E.
    assert (Hf : forall r : R PyFloat.float, (f <-? r ;; inr (VFloat f)) = inr y -> exists f, y = VFloat f).
    { intros [e|f] E'; simpl in E'; [discriminate|injection E' as <-; eauto]. }
    destruct prec; simpl in E; try discriminate;
      destruct (as_num x) as [n|]; simpl in E; try discriminate;
      destruct (to_float n); simpl in E; try discriminate;
      injection E as <-; eauto.
Qed.

(** X17. The generated axis points are all ints for precision 0 and all
    floats for any other precision. *)
Theorem axis_points_kind mn mx pts prec l :
  axis_points mn mx pts prec = inr l -> Forall (point_kind prec) l.
Proof.
  unfold axis_points.
  destruct (as_num pts) as [n|]; [|destruct pts; intros Hc; inversion Hc].
  destruct (num_lt n (NInt 1)); [intros Hc; inversion Hc|].
  destruct (num_eq n (NInt 1)).
  - intros E. apply mapR_Forall2 in E. induction E; constructor; eauto using axis_convert_kind.
  - destruct (as_num mn) as [m|]; simpl; [|intros Hc; inversion Hc].
    destruct (as_num mx) as [m'|]; simpl; [|intros Hc; inversion Hc].
    destruct (axis_step m m' n) as [|step]; simpl; [intros Hc; inversion Hc|].
    destruct n as [cnt|f]; simpl; [|intros Hc; inversion Hc].
    intros E. apply mapR_Forall2 in E. induction E as [|x y xs ys Hxy _ IH]; constructor; auto.
    destruct (axis_sample step m x) as [|s]; simpl in Hxy; [discriminate|].
    exact (axis_convert_kind _ _ _ Hxy).
Qed.

(** X12. An empty line-chart result raises [IndexError]. *)
Theorem line_convert_empty result (h : heap) :
  as_seq h result = Some [] -> line_convert result h = (inl IndexError, h).
Proof.
  intros Hs. destruct result; try discriminate; simpl in Hs.
  - injection Hs as ->. reflexivity.
  - destruct (h !! p) as [[l|kv]|] eqn:Ep; try discriminate. injection Hs as ->.
    unfold line_convert, py_index, bind, load. rewrite Ep. reflexivity.
Qed.

Lemma build_xml_seq l :
  build_xml (TList l) = flat_map build_xml l /\ build_xml (TTuple l) = flat_map build_xml l.
Proof.
  induction l as [|x l IH]; [split; reflexivity|]. destruct IH as [H1 H2]. split.
  - change (build_xml (TList (x :: l))) with (build_xml x ++ build_xml (TList l)).
    rewrite H1. reflexivity.
  - change (build_xml (TTuple (x :: l))) with (build_xml x ++ build_xml (TTuple l)).
    rewrite H2. reflexivity.
Qed.

(** X18. The XML renderer flattens sequences: nested lists (or tuples)
    give the nodes of their concatenation, and a tuple gives the nodes of
    the list with the same items. *)
Theorem build_xml_flatten ls :
  build_xml (TList (map TList ls)) = build_xml (TList (concat ls)) /\
  build_xml (TTuple (map TTuple ls)) = build_xml (TList (concat ls)) /\
  (forall l, build_xml (TTuple l) = build_xml (TList l)).
Proof.
  split; [|split].
  - rewrite (proj1 (build_xml_seq _)), (proj1 (build_xml_seq _)).
    induction ls as [|l ls IH]; [reflexivity|]. cbn [map concat flat_map]. rewrite flat_map_app, <- IH.
    rewrite (proj1 (build_xml_seq l)). reflexivity.
  - rewrite (proj2 (build_xml_seq _)), (proj1 (build_xml_seq _)).
    induction ls as [|l ls IH]; [reflexivity|]. cbn [map concat flat_map]. rewrite flat_map_app, <- IH.
    rewrite (proj2 (build_xml_seq l)). reflexivity.
  - intros l. rewrite (proj1 (build_xml_seq l)), (proj2 (build_xml_seq l)). reflexivity.
Qed.

(** X19. A mapping entry whose value is an empty list or tuple produces no
    XML element. *)
Theorem build_xml_empty_entry kv1 kv2 k :
  build_xml (TDict (kv1 ++ (k, TList []) :: kv2)) = build_xml (TDict (kv1 ++ kv2)) /\
  build_xml (TDict (kv1 ++ (k, TTuple []) :: kv2)) = build_xml (TDict (kv1 ++ kv2)).
Proof.
  rewrite !build_xml_dict, !flat_map_app. split; reflexivity.
Qed.

Lemma text_scalar_elem tag ch : text_scalar (XElem tag ch) <-> Forall text_scalar ch.
Proof.
  simpl. induction ch as [|x ch IH]; split; intros H.
  - constructor.
  - exact I.
  - destruct H as [Hx Hch]. constructor; [exact Hx|apply IH; exact Hch].
  - inversion H; subst. split; [assumption|apply IH; assumption].
Qed.

Lemma Forall_flat_map {A B} (P : B -> Prop) (f : A -> list B) l :
  Forall (fun x => Forall P (f x)) l -> Forall P (flat_map f l).
Proof. induction 1; simpl; [constructor|]. apply Forall_app. auto. Qed.

(** X20. Every text node of the XML output holds a scalar: a sequence or a
    mapping is never rendered as text. *)
Theorem build_xml_text_scalar t : Forall text_scalar (build_xml t).
Proof.
  induction t as [t Ht|l Hl|l Hl|kv Hkv] using tree_ind'.
  - destruct t; try contradiction; repeat constructor.
  - rewrite (proj2 (build_xml_seq l)). apply Forall_flat_map. exact Hl.
  - rewrite (proj1 (build_xml_seq l)). apply Forall_flat_map. exact Hl.
  - rewrite build_xml_dict. apply Forall_flat_map.
    induction Hkv as [|[k t] kv Ht _ IH]; constructor; [|exact IH].
    unfold dict_entry_nodes. simpl in *.
    destruct t as [| | | | |l|l|kv'];
      try (constructor; [apply text_scalar_elem; exact Ht|constructor]).
    + rewrite (proj2 (build_xml_seq l)) in Ht.
      apply Stdlib.Lists.List.Forall_forall. intros n Hn. apply in_map_iff in Hn as (x & <- & Hx).
      apply text_scalar_elem. apply Stdlib.Lists.List.Forall_forall. intros m Hm.
      rewrite Stdlib.Lists.List.Forall_forall in Ht. apply Ht. apply in_flat_map. eauto.
    + rewrite (proj1 (build_xml_seq l)) in Ht.
      apply Stdlib.Lists.List.Forall_forall. intros n Hn. apply in_map_iff in Hn as (x & <- & Hx).
      apply text_scalar_elem. apply Stdlib.Lists.List.Forall_forall. intros m Hm.
      rewrite Stdlib.Lists.List.Forall_forall in Ht. apply Ht. apply in_flat_map. eauto.
Qed.

Ltac views_tac :=
  repeat (constructor; [split; [reflexivity|discriminate]|]); constructor.

Lemma gate_accepts_encoded_witness :
  wrapped_view (Some "abc") widget_convert (fun _ => ret (VStr "test"))
    {| POST := []; GET := []; META := [("HTTP_AUTHORIZATION", "BASIC YWJjOnB3")] |} ∅
  = serve widget_convert (fun _ => ret (VStr "test"))
    {| POST := []; GET := []; META := [("HTTP_AUTHORIZATION", "BASIC YWJjOnB3")] |} ∅.
Proof.
  apply (gate_accepts_encoded "abc" ":pw" "BASIC").
  - vm_compute. reflexivity.
  - discriminate.
  - cbv. intuition discriminate.
  - right. exists "pw". reflexivity.
  - vm_compute. reflexivity.
Defined.

Lemma gate_colon_key_witness :
  wrapped_view (Some "a:b") widget_convert (fun _ => ret (VStr "test"))
    {| POST := []; GET := []; META := [("HTTP_AUTHORIZATION", "Basic YTpi")] |} ∅
  = (inr (HttpResponseForbidden forbidden_body), ∅) \/
  wrapped_view (Some "a:b") widget_convert (fun _ => ret (VStr "test"))
    {| POST := []; GET := []; META := [("HTTP_AUTHORIZATION", "Basic YTpi")] |} ∅
  = (inl TypeError, ∅).
Proof. apply gate_colon_key. right. left. reflexivity. Defined.

Lemma gate_forbids_witness :
  wrapped_view (Some "abc") widget_convert (fun _ => ret (VStr "test"))
    {| POST := []; GET := []; META := [("HTTP_AUTHORIZATION", "Bearer YWJj")] |} ∅
  = (inr (HttpResponseForbidden forbidden_body), ∅).
Proof.
  apply gate_forbids. intros scheme tok H. vm_compute in H. injection H as <- <-.
  left. vm_compute. discriminate.
Defined.


Lemma text_convert_items_witness :
  exists r h', text_convert (VTuple [VStr "hello"; VTuple [VStr "careful"; VInt TEXT_WARN]]) ∅
                 = (inr r, h') /\
    items_result ∅ h' text_kv [[VStr "hello"]; [VStr "careful"; VInt TEXT_WARN]] r.
Proof.
  apply (text_convert_items _ [VStr "hello"; VTuple [VStr "careful"; VInt TEXT_WARN]]);
    [reflexivity|views_tac].
Defined.

Lemma pie_convert_items_witness :
  exists r h', pie_convert (VTuple [VTuple [VInt 100; VStr "a"; VStr "ff0000"];
                                    VTuple [VInt 50; VStr "b"]]) ∅ = (inr r, h') /\
    items_result ∅ h' pie_kv [[VInt 100; VStr "a"; VStr "ff0000"]; [VInt 50; VStr "b"]] r.
Proof.
  apply (pie_convert_items _ [VTuple [VInt 100; VStr "a"; VStr "ff0000"];
                              VTuple [VInt 50; VStr "b"]]); [reflexivity|views_tac].
Defined.

Lemma items_empty_elem_raises_witness :
  (fst (rag_convert (VTuple [VInt 1; VTuple []]) ∅) = inl IndexError /\
   fst (pie_convert (VTuple [VInt 1; VTuple []]) ∅) = inl IndexError) /\
  fst (text_convert (VTuple [VInt 1; VTuple []]) ∅) = inl IndexError.
Proof.
  destruct (items_empty_elem_raises (VTuple [VInt 1; VTuple []]) [VInt 1] (VTuple []) []
              [[VInt 1]] ∅ ltac:(views_tac) eq_refl) as [H1 H2].
  split; [apply H1|apply H2]; reflexivity.
Defined.


Lemma line_convert_empty_witness :
  line_convert (VRef 1) (<[1%positive := OList []]> ∅)
  = (inl IndexError, <[1%positive := OList []]> ∅).
Proof. apply line_convert_empty. vm_compute. reflexivity. Defined.


Lemma meter_convert_errors_witness :
  meter_convert (VTuple [VInt 1; VInt 2]) ∅ = (inl ValueError, ∅).
Proof. apply (meter_convert_errors _ [VInt 1; VInt 2]); [reflexivity|discriminate]. Defined.

Lemma funnel_without_items_witness :
  exists o l h',
    funnel_convert (VRef 1) (<[1%positive := ODict [("sort", VBool true); ("type", VStr "reverse")]]> ∅)
    = (inr (VRef o), h') /\
    h' !! o = Some (ODict [("item", VRef l); ("type", VStr "reverse"); ("percentage", VStr "show")]) /\
    h' !! l = Some (OList []) /\
    (<[1%positive := ODict [("sort", VBool true); ("type", VStr "reverse")]]> ∅ : heap) !! l = None /\
    heap_ext (<[1%positive := ODict [("sort", VBool true); ("type", VStr "reverse")]]> ∅) h'.
Proof.
  apply (funnel_without_items 1 [("sort", VBool true); ("type", VStr "reverse")] true).
  - vm_compute. reflexivity.
  - reflexivity.
  - intros h0. reflexivity.
Defined.

Lemma bullet_recipe_errors_witness :
  let ka := [("min", VInt 0); ("max", VInt 10); ("points", VInt 0)] in
  let h : heap := <[1%positive := ODict [("item", VRef 2)]]>
                 (<[2%positive := ODict [("axis", VRef 3)]]>
                 (<[3%positive := ODict ka]> ∅)) in
  bullet_convert (VRef 1) h = (inl ValueError, <[3%positive := ODict (recipe_removed ka)]> h).
Proof.
  intros ka h.
  refine (proj2 (proj2 (bullet_recipe_errors 1 [("item", VRef 2)] 2 [("axis", VRef 3)] 3 ka h
            _ _ _ _ _ _)) (VInt 0) (VInt 10) 0 _ _ _ _);
    [reflexivity..|intros h0; reflexivity|reflexivity|reflexivity|reflexivity|lia].
Defined.

Lemma axis_points_kind_witness :
  Forall (point_kind (VInt 0)) [VInt 0; VInt 5; VInt 10; VInt 15; VInt 20].
Proof. apply (axis_points_kind (VInt 0) (VInt 20) (VInt 5)). vm_compute. reflexivity. Defined.

End Extras.
